(** * Trace_ELBO: a shallow embedding of [pyro/infer/trace_elbo.py]

    The development follows the Python module top to bottom:
    - scalars and tensors (the part of the tensor runtime the module touches),
    - [MultiViewTensor] and [n_compatible_indices] (imported from
      [pyro.infer.util]),
    - traces and site records,
    - [compute_site_log_r],
    - the trace generator [_get_traces],
    - [loss] and [loss_and_grads],
    - the properties of the specification. *)

From Stdlib Require Import ZArith Floats Uint63 Permutation.
From stdpp Require Import base option list strings gmap.

Local Open Scope string_scope.
Local Open Scope nat_scope.
Local Open Scope list_scope.

(** ** Exceptions and the error monad *)

Inductive exn : Type :=
| KeyError (key : string)
| RuntimeError (msg : string)
| ValueError
| AttributeError (attr : string)
| ZeroDivisionError
| External (msg : string).

Inductive result (A : Type) : Type :=
| Ok (a : A)
| Err (e : exn).
Arguments Ok {A} a.
Arguments Err {A} e.

#[global] Instance result_ret : MRet result := fun _ a => Ok a.
#[global] Instance result_bind : MBind result := fun _ _ f m =>
  match m with
  | Ok a => f a
  | Err e => Err e
  end.

#[global] Instance result_fmap : FMap result := fun _ _ f m =>
  match m with
  | Ok a => Ok (f a)
  | Err e => Err e
  end.

Definition of_option {A} (o : option A) (e : exn) : result A :=
  match o with Some a => Ok a | None => Err e end.

(** ** Scalars

    The element type of tensors and the type of Python floats.  The module
    never inspects numbers beyond arithmetic, comparison with zero and the
    NaN test, so the operations are an interface; [float_scalar] below is the
    IEEE binary64 instance. *)

Class Scalar (R : Type) : Type := {
  s_zero : R;
  s_add : R -> R -> R;
  s_sub : R -> R -> R;
  s_mul : R -> R -> R;
  s_neg : R -> R;
  s_div : R -> R -> R;
  s_of_nat : nat -> R;
  s_eqb : R -> R -> bool;
  s_is_nan : R -> bool
}.

#[global] Instance float_scalar : Scalar float := {|
  s_zero := 0%float;
  s_add := PrimFloat.add;
  s_sub := PrimFloat.sub;
  s_mul := PrimFloat.mul;
  s_neg := PrimFloat.opp;
  s_div := PrimFloat.div;
  s_of_nat := fun n => PrimFloat.of_uint63 (Uint63.of_Z (Z.of_nat n));
  s_eqb := PrimFloat.eqb;
  s_is_nan := PrimFloat.is_nan
|}.

(** Exact integer arithmetic, used where a statement is about the value
    computed rather than about rounding. *)
#[global] Instance Z_scalar : Scalar Z := {|
  s_zero := 0%Z;
  s_add := Z.add;
  s_sub := Z.sub;
  s_mul := Z.mul;
  s_neg := Z.opp;
  s_div := Z.div;
  s_of_nat := Z.of_nat;
  s_eqb := Z.eqb;
  s_is_nan := fun _ => false
|}.

(** The laws of exact arithmetic that the comparison of [loss] with
    [loss_and_grads] relies on. *)
Class ExactScalar (R : Type) `{Scalar R} : Prop := {
  s_add_comm : forall x y : R, s_add x y = s_add y x;
  s_add_assoc : forall x y z : R, s_add x (s_add y z) = s_add (s_add x y) z;
  s_add_zero_l : forall x : R, s_add s_zero x = x;
  s_sub_add : forall x y z : R, s_sub x (s_add y z) = s_sub (s_sub x y) z;
  s_sub_zero_r : forall x : R, s_sub x s_zero = x;
  s_add_sub_swap : forall x y z : R, s_sub (s_add x y) z = s_add (s_sub x z) y;
  s_div_one : forall x : R, s_div x (s_of_nat 1) = x
}.

Section TraceELBO.
Context {R : Type} `{Scalar R}.

(** ** Tensors

    A tensor is its shape, its elements in row-major order and the autograd
    flag [requires_grad].  Tensor elements and Python floats share the
    scalar type.  Of autograd only the flag is kept: the restrictions it
    puts on in-place operations are not part of the model. *)

Record tensor : Type := Tensor {
  shape : list nat;
  data : list R;
  requires_grad : bool
}.

Definition numel (s : list nat) : nat := fold_right Nat.mul 1 s.

Definition wf_tensor (t : tensor) : Prop := length (data t) = numel (shape t).

Definition dim (t : tensor) : nat := length (shape t).

(** [t.detach()]: same data, cut from the autograd graph. *)
Definition detach (t : tensor) : tensor :=
  Tensor (shape t) (data t) false.

Definition zeros (s : list nat) : tensor :=
  Tensor s (repeat s_zero (numel s)) false.

(** Broadcasting, right-aligned as in the tensor runtime. *)
Definition pad_shape (n : nat) (s : list nat) : list nat :=
  repeat 1 (n - length s) ++ s.

Definition bdim (a b : nat) : option nat :=
  if a =? b then Some a
  else if a =? 1 then Some b
  else if b =? 1 then Some a
  else None.

Fixpoint bshape (s1 s2 : list nat) : option (list nat) :=
  match s1, s2 with
  | [], [] => Some []
  | a :: s1', b :: s2' =>
      match bdim a b, bshape s1' s2' with
      | Some d, Some r => Some (d :: r)
      | _, _ => None
      end
  | _, _ => None
  end.

Definition broadcast_shapes (s1 s2 : list nat) : option (list nat) :=
  let n := Nat.max (length s1) (length s2) in
  bshape (pad_shape n s1) (pad_shape n s2).

(** [chunks k n l]: the first [n] consecutive blocks of [k] elements of [l]. *)
Fixpoint chunks (k n : nat) (l : list R) : list (list R) :=
  match n with
  | 0 => []
  | S n' => take k l :: chunks k n' (drop k l)
  end.

(** [expand_data s t d]: the elements of a tensor of shape [s] with elements
    [d], expanded to the shape [t] of the same rank. *)
Fixpoint expand_data (s t : list nat) (d : list R) : list R :=
  match s, t with
  | a :: s', b :: t' =>
      if a =? b
      then concat (map (expand_data s' t') (chunks (numel s') a d))
      else concat (repeat (expand_data s' t' d) b)
  | _, _ => d
  end.

Definition expand_to (t : tensor) (s : list nat) : list R :=
  expand_data (pad_shape (length s) (shape t)) s (data t).

(** [expandable s t]: a tensor of shape [s] broadcasts to exactly [t]. *)
Definition expandable (s t : list nat) : bool :=
  bool_decide (broadcast_shapes s t = Some t).

Definition t_binop (f : R -> R -> R) (x y : tensor) : result tensor :=
  match broadcast_shapes (shape x) (shape y) with
  | Some s =>
      Ok (Tensor s (zip_with f (expand_to x s) (expand_to y s))
            (requires_grad x || requires_grad y))
  | None => Err (RuntimeError "shapes cannot be broadcast")
  end.

(** The in-place form [x op= y]: the result must have the shape of [x]. *)
Definition t_binop_ (f : R -> R -> R) (x y : tensor) : result tensor :=
  if expandable (shape y) (shape x)
  then Ok (Tensor (shape x) (zip_with f (data x) (expand_to y (shape x)))
             (requires_grad x || requires_grad y))
  else Err (RuntimeError "in-place result has another shape").

Definition t_map (f : R -> R) (x : tensor) : tensor :=
  Tensor (shape x) (map f (data x)) (requires_grad x).

(** [t.sum()]: a 0-dimensional tensor. *)
Definition t_sum (t : tensor) : tensor :=
  Tensor [] [fold_left s_add (data t) s_zero] (requires_grad t).

(** [t.item()]: the only element, as a Python number. *)
Definition item (t : tensor) : result R :=
  match data t with
  | [x] => Ok x
  | _ => Err ValueError
  end.

(** Sum out the [k] leftmost dimensions. *)
Definition sum_leftmost (t : tensor) (k : nat) : tensor :=
  let rest := drop k (shape t) in
  let blocks := chunks (numel rest) (numel (take k (shape t))) (data t) in
  Tensor rest
    (fold_left (zip_with s_add) blocks (repeat s_zero (numel rest)))
    (requires_grad t).

(** ** Python values

    A variable of the module holds a Python number or a tensor; arithmetic
    dispatches on both operands. *)

Inductive pyval : Type :=
| PNum (x : R)
| PTensor (t : tensor).

Definition v_binop (f : R -> R -> R) (a b : pyval) : result pyval :=
  match a, b with
  | PNum x, PNum y => Ok (PNum (f x y))
  | PNum x, PTensor t => Ok (PTensor (t_map (f x) t))
  | PTensor t, PNum y => Ok (PTensor (t_map (fun x => f x y) t))
  | PTensor t, PTensor u => PTensor <$> t_binop f t u
  end.

(** Augmented assignment [a op= b]: in place when [a] is a tensor. *)
Definition v_binop_ (f : R -> R -> R) (a b : pyval) : result pyval :=
  match a, b with
  | PTensor t, PTensor u => PTensor <$> t_binop_ f t u
  | _, _ => v_binop f a b
  end.

Definition v_add := v_binop s_add.
Definition v_sub := v_binop s_sub.
Definition v_mul := v_binop s_mul.
Definition v_iadd := v_binop_ s_add.
Definition v_isub := v_binop_ s_sub.

Definition v_neg (a : pyval) : pyval :=
  match a with
  | PNum x => PNum (s_neg x)
  | PTensor t => PTensor (t_map s_neg t)
  end.

(** [a / n] for the Python int [n] (true division): a number divided by
    zero raises, a tensor divided by zero does not. *)
Definition v_div_nat (a : pyval) (n : nat) : result pyval :=
  match a with
  | PNum x =>
      if n =? 0 then Err ZeroDivisionError
      else Ok (PNum (s_div x (s_of_nat n)))
  | PTensor t => Ok (PTensor (t_map (fun x => s_div x (s_of_nat n)) t))
  end.

(** [a.sum()] *)
Definition v_sum (a : pyval) : result tensor :=
  match a with
  | PNum _ => Err (AttributeError "sum")
  | PTensor t => Ok (t_sum t)
  end.

(** [getattr(a, 'requires_grad', False)] *)
Definition v_requires_grad (a : pyval) : bool :=
  match a with
  | PNum _ => false
  | PTensor t => requires_grad t
  end.

(** Modelled from the spec: [is_identically_zero] of
    [pyro.distributions.util], which is not part of the sources at hand: a
    term is identically zero when it is the number zero, never when it is
    a tensor. *)
Definition is_identically_zero (a : pyval) : bool :=
  match a with
  | PNum x => s_eqb x s_zero
  | PTensor _ => false
  end.

(** Modelled from the spec: [is_nan] of [pyro.util], which is not part of
    the sources at hand: it detects NaN in a scalar, a number or a tensor. *)
Definition is_nan (a : pyval) : bool :=
  match a with
  | PNum x => s_is_nan x
  | PTensor t => existsb s_is_nan (data t)
  end.

(** ** MultiViewTensor *)

(** Modelled from the spec: the class [MultiViewTensor] of
    [pyro.infer.util], which is not part of the sources at hand: a mapping
    from shape to the tensor accumulated at that shape, in insertion
    order. *)
Definition MultiViewTensor : Type := list (list nat * tensor).

(** Modelled from the spec: [MultiViewTensor(value)], the one-entry
    mapping. *)
Definition mv_of_tensor (t : tensor) : MultiViewTensor := [(shape t, t)].

(** Modelled from the spec: adding one tensor; a term of a shape already
    present is added to the entry of that shape, a term of a new shape gets
    an entry of its own. *)
Fixpoint mv_add_tensor (mv : MultiViewTensor) (t : tensor)
  : result MultiViewTensor :=
  match mv with
  | [] => Ok [(shape t, t)]
  | (s, u) :: mv' =>
      if decide (s = shape t)
      then v ← t_binop s_add u t; Ok ((s, v) :: mv')
      else mv'' ← mv_add_tensor mv' t; Ok ((s, u) :: mv'')
  end.

(** Modelled from the spec: [MultiViewTensor.add(term)], the addition of
    every entry of [term]. *)
Fixpoint mv_add (mv term : MultiViewTensor) : result MultiViewTensor :=
  match term with
  | [] => Ok mv
  | (_, t) :: term' => mv' ← mv_add_tensor mv t; mv_add mv' term'
  end.

(** Modelled from the spec: the restriction of one term to the [k]
    dimensions it shares with the target, its [k] rightmost ones: the
    leftmost dimensions are summed out, all but [k] of them (none when the
    term has no more than [k]). *)
Definition keep_rightmost (t : tensor) (k : nat) : tensor :=
  sum_leftmost t (dim t - k).

(** Modelled from the spec: [sum_leftmost_all_but(dim)], the mapping that
    accumulates the restriction of every entry. *)
Fixpoint mv_sum_leftmost_all_but_from (acc mv : MultiViewTensor) (k : nat)
  : result MultiViewTensor :=
  match mv with
  | [] => Ok acc
  | (_, t) :: mv' =>
      acc' ← mv_add_tensor acc (keep_rightmost t k);
      mv_sum_leftmost_all_but_from acc' mv' k
  end.

(** Modelled from the spec: [sum_leftmost_all_but(dim)], into an empty
    mapping. *)
Definition mv_sum_leftmost_all_but (mv : MultiViewTensor) (k : nat)
  : result MultiViewTensor :=
  mv_sum_leftmost_all_but_from [] mv k.

(** Modelled from the spec: the contraction of one entry: the leading
    dimensions it has beyond the rank of the target are summed out, and the
    rest is broadcast to the target shape; an entry that does not broadcast
    to the target shape raises. *)
Definition contract_term (t : tensor) (target_shape : list nat)
  : result tensor :=
  let u := keep_rightmost t (length target_shape) in
  if expandable (shape u) target_shape
  then Ok (Tensor target_shape (expand_to u target_shape) (requires_grad u))
  else Err (RuntimeError "entry does not broadcast to the target shape").

(** Modelled from the spec: [contract(target_shape)], a single tensor of
    exactly the target shape, the sum of the contractions of the entries,
    from zeros and in insertion order. *)
Fixpoint mv_contract_from (acc : tensor) (mv : MultiViewTensor)
    (target_shape : list nat) : result tensor :=
  match mv with
  | [] => Ok acc
  | (_, t) :: mv' =>
      u ← contract_term t target_shape;
      acc' ← t_binop s_add acc u;
      mv_contract_from acc' mv' target_shape
  end.

(** Modelled from the spec: [contract(target_shape)], from zeros. *)
Definition mv_contract (mv : MultiViewTensor) (target_shape : list nat)
  : result tensor :=
  mv_contract_from (zeros target_shape) mv target_shape.

(** ** Plate stacks *)

(** One frame of a plate stack: the name of the plate and its dimension. *)
Definition frame : Type := string * Z.

Fixpoint assoc {V : Type} (k : string) (l : list (string * V)) : option V :=
  match l with
  | [] => None
  | (k', v) :: l' => if String.eqb k k' then Some v else assoc k l'
  end.

(** Modelled from the spec: the number of leading frames two plate stacks
    have in common. *)
Fixpoint common_prefix_length (a b : list frame) : nat :=
  match a, b with
  | x :: a', y :: b' =>
      if decide (x = y) then S (common_prefix_length a' b') else 0
  | _, _ => 0
  end.

(** Modelled from the spec: [n_compatible_indices] of [pyro.infer.util],
    which is not part of the sources at hand: the number of leading
    dimensions the two sites share, read off their plate stacks. *)
Definition n_compatible_indices (stacks : list (string * list frame))
    (name1 name2 : string) : result nat :=
  stack1 ← of_option (assoc name1 stacks) (KeyError name1);
  stack2 ← of_option (assoc name2 stacks) (KeyError name2);
  Ok (common_prefix_length stack1 stack2).

(** ** Traces

    A site record is a Python dict; the keys the module reads are its
    fields.  A key that may be missing is an [option]: reading it when it is
    absent raises [KeyError].  [stype] is the key ["type"].  [value] is the
    identity of the tensor object stored under ["value"], which is all the
    module uses of it. *)

Record site : Type := Site {
  stype : string;
  is_observed : bool;
  value : nat;
  log_pdf : option tensor;
  batch_log_pdf : option tensor;
  score_parts : option (tensor * pyval * pyval)
}.

(** [trace.nodes], an ordered mapping from site name to site record, and
    [trace.graph["iarange_info"]['iarange_stacks']]. *)
Record trace : Type := Trace {
  nodes : list (string * site);
  iarange_stacks : option (list (string * list frame))
}.

Definition is_sample (s : site) : bool := String.eqb (stype s) "sample".
Definition is_param (s : site) : bool := String.eqb (stype s) "param".

(** The tensor stored under ["batch_log_pdf"] is a mutable object: an
    in-place operation on it is a store to the site record. *)
Definition set_batch_log_pdf (s : site) (t : tensor) : site :=
  Site (stype s) (is_observed s) (value s) (log_pdf s) (Some t)
    (score_parts s).

(** Modelled from the spec: [Trace.log_pdf()], which is not part of the
    sources at hand: the total scalar log-density of a trace, the sum of
    the [log_pdf] of its sample sites. *)
Fixpoint total_log_pdf_from (log_p : tensor) (l : list (string * site))
  : result tensor :=
  match l with
  | [] => Ok log_p
  | (_, s) :: l' =>
      if is_sample s
      then site_log_p ← of_option (log_pdf s) (KeyError "log_pdf");
           log_p' ← t_binop s_add log_p site_log_p;
           total_log_pdf_from log_p' l'
      else total_log_pdf_from log_p l'
  end.

(** Modelled from the spec: [Trace.log_pdf()], from a zero scalar. *)
Definition trace_log_pdf (tr : trace) : result tensor :=
  total_log_pdf_from (zeros []) (nodes tr).

(** ** compute_site_log_r *)

(** The body of the loop for one site: the term of the site, after the
    in-place subtraction of the guide density for a latent site, and the
    site record as the loop leaves it. *)
Definition log_r_term_of (guide_trace : trace) (name : string)
    (model_site : site) : result (tensor * site) :=
  log_r_term ← of_option (batch_log_pdf model_site) (KeyError "batch_log_pdf");
  if negb (is_observed model_site)
  then guide_site ← of_option (assoc name (nodes guide_trace)) (KeyError name);
       sp ← of_option (score_parts guide_site) (KeyError "score_parts");
       let '(guide_log_pdf, _, _) := sp in
       log_r_term' ← t_binop_ s_sub log_r_term guide_log_pdf;
       Ok (log_r_term', set_batch_log_pdf model_site log_r_term')
  else Ok (log_r_term, model_site).

Fixpoint log_r_loop (stacks : list (string * list frame))
    (guide_trace : trace) (target_site : string)
    (l : list (string * site)) (log_r : MultiViewTensor)
  : result (MultiViewTensor * list (string * site)) :=
  match l with
  | [] => Ok (log_r, [])
  | (name, model_site) :: l' =>
      if is_sample model_site
      then
        '(log_r_term, model_site') ← log_r_term_of guide_trace name model_site;
        let log_r_term := mv_of_tensor (detach log_r_term) in
        dims_to_keep ← n_compatible_indices stacks name target_site;
        summed_log_r_term ← mv_sum_leftmost_all_but log_r_term dims_to_keep;
        log_r' ← mv_add log_r summed_log_r_term;
        '(log_r'', l'') ← log_r_loop stacks guide_trace target_site l' log_r';
        Ok (log_r'', (name, model_site') :: l'')
      else
        '(log_r'', l'') ← log_r_loop stacks guide_trace target_site l' log_r;
        Ok (log_r'', (name, model_site) :: l'')
  end.

(** Returns the tensor and the model trace as the call leaves it. *)
Definition compute_site_log_r (model_trace guide_trace : trace)
    (target_site : string) (target_shape : list nat)
  : result (tensor * trace) :=
  stacks ← of_option (iarange_stacks model_trace) (KeyError "iarange_stacks");
  '(log_r, l) ← log_r_loop stacks guide_trace target_site
                  (nodes model_trace) [];
  r ← mv_contract log_r target_shape;
  Ok (r, Trace l (iarange_stacks model_trace)).

(** ** The estimator and its collaborators *)

Record Trace_ELBO : Type := {
  num_particles : nat;
  max_iarange_nesting : option nat
}.

(** What the module calls outside itself to make a trace pair.  The first
    argument of the two executions is the index of the particle: every
    execution draws its own samples. *)
Record Engine : Type := {
  guide_get_trace : nat -> result trace;
  model_replay_get_trace : nat -> trace -> result trace;
  check_model_guide_match : trace -> trace -> result unit;
  prune_subsample_sites : trace -> trace;
  compute_batch_log_pdf : trace -> result trace;
  compute_score_parts : trace -> result trace;
  check_site_shape : site -> option nat -> result unit
}.

Fixpoint check_sample_sites (eng : Engine) (self : Trace_ELBO)
    (l : list (string * site)) : result unit :=
  match l with
  | [] => Ok tt
  | (_, s) :: l' =>
      if is_sample s
      then _ ← check_site_shape eng s (max_iarange_nesting self);
           check_sample_sites eng self l'
      else check_sample_sites eng self l'
  end.

(** The body of the loop of [_get_traces] for particle [i], up to the
    [yield]. *)
Definition get_traces_body (eng : Engine) (self : Trace_ELBO) (i : nat)
  : result (trace * trace) :=
  guide_trace ← guide_get_trace eng i;
  model_trace ← model_replay_get_trace eng i guide_trace;
  _ ← check_model_guide_match eng model_trace guide_trace;
  let guide_trace := prune_subsample_sites eng guide_trace in
  let model_trace := prune_subsample_sites eng model_trace in
  model_trace ← compute_batch_log_pdf eng model_trace;
  guide_trace ← compute_score_parts eng guide_trace;
  _ ← check_sample_sites eng self (nodes model_trace);
  _ ← check_sample_sites eng self (nodes guide_trace);
  Ok (model_trace, guide_trace).

(** The generator: one item per [i] in [range(self.num_particles)]; an item
    is the pair yielded or the exception raised on the way to it. *)
Definition _get_traces (eng : Engine) (self : Trace_ELBO)
  : list (result (trace * trace)) :=
  map (get_traces_body eng self) (seq 0 (num_particles self)).

(** ** Effects of the two entry points *)

Inductive event : Type :=
| Warn (msg : string)
| Backward (surrogate_loss : pyval)
| MarkParamsActive (params : gset nat).

(** A computation that may raise and that logs the events it performs, also
    those before a raise. *)
Record eff (A : Type) : Type := Eff {
  outcome : result A;
  events : list event
}.
Arguments Eff {A} outcome events.
Arguments outcome {A} e.
Arguments events {A} e.

#[global] Instance eff_ret : MRet eff := fun _ a => Eff (Ok a) [].
#[global] Instance eff_bind : MBind eff := fun _ _ f m =>
  match outcome m with
  | Ok a => Eff (outcome (f a)) (events m ++ events (f a))
  | Err e => Eff (Err e) (events m)
  end.

Definition lift {A} (r : result A) : eff A := Eff r [].
Definition emit (e : event) : eff unit := Eff (Ok tt) [e].

(** ** loss *)

(** [(model_trace.log_pdf() - guide_trace.log_pdf()).item()] *)
Definition elbo_particle_of (model_trace guide_trace : trace) : result R :=
  m ← trace_log_pdf model_trace;
  g ← trace_log_pdf guide_trace;
  d ← t_binop s_sub m g;
  item d.

Fixpoint loss_loop (self : Trace_ELBO) (gen : list (result (trace * trace)))
    (elbo : R) : result R :=
  match gen with
  | [] => Ok elbo
  | next :: gen' =>
      '(model_trace, guide_trace) ← next;
      elbo_particle ← elbo_particle_of model_trace guide_trace;
      q ← (if num_particles self =? 0 then Err ZeroDivisionError
           else Ok (s_div elbo_particle (s_of_nat (num_particles self))));
      loss_loop self gen' (s_add elbo q)
  end.

Definition warn_if_nan (loss : pyval) : eff unit :=
  if is_nan loss then emit (Warn "Encountered NAN loss") else mret tt.

Definition loss (eng : Engine) (self : Trace_ELBO) : eff R :=
  elbo ← lift (loss_loop self (_get_traces eng self) s_zero);
  let loss := s_neg elbo in
  _ ← warn_if_nan (PNum loss);
  mret loss.

(** ** loss_and_grads *)

(** The state of the loop over the sites of one particle: the two
    accumulators and the model trace, whose tensors the calls of
    [compute_site_log_r] update. *)
Record particle_state : Type := PState {
  elbo_particle : pyval;
  surrogate_elbo_particle : pyval;
  cur_model_trace : trace
}.

(** The branch of a latent site. *)
Definition latent_site_step (guide_trace : trace) (name : string)
    (model_log_pdf : tensor) (st : particle_state) : result particle_state :=
  guide_site ← of_option (assoc name (nodes guide_trace)) (KeyError name);
  sp ← of_option (score_parts guide_site) (KeyError "score_parts");
  let '(guide_log_pdf, score_function_term, entropy_term) := sp in
  e1 ← v_add (elbo_particle st) (PTensor model_log_pdf);
  e ← v_sub e1 (PTensor (t_sum guide_log_pdf));
  s1 ← v_add (surrogate_elbo_particle st) (PTensor model_log_pdf);
  s2 ← (if negb (is_identically_zero entropy_term)
        then es ← v_sum entropy_term; v_isub s1 (PTensor es)
        else Ok s1);
  if negb (is_identically_zero score_function_term)
  then
    '(log_r_site, model_trace') ←
      compute_site_log_r (cur_model_trace st) guide_trace name
        (shape guide_log_pdf);
    p ← v_mul (PTensor log_r_site) score_function_term;
    ps ← v_sum p;
    s3 ← v_add s2 (PTensor ps);
    Ok (PState e s3 model_trace')
  else Ok (PState e s2 (cur_model_trace st)).

(** The body of the loop over [model_trace.nodes.items()] at position [k]
    of the mapping. *)
Definition site_step (guide_trace : trace) (st : particle_state) (k : nat)
  : result particle_state :=
  '(name, model_site) ←
    of_option (nodes (cur_model_trace st) !! k)
      (RuntimeError "mapping changed size during iteration");
  if is_sample model_site
  then
    model_log_pdf ← of_option (log_pdf model_site) (KeyError "log_pdf");
    if is_observed model_site
    then
      x ← item model_log_pdf;
      e ← v_add (elbo_particle st) (PNum x);
      s ← v_add (surrogate_elbo_particle st) (PTensor model_log_pdf);
      Ok (PState e s (cur_model_trace st))
    else latent_site_step guide_trace name model_log_pdf st
  else Ok st.

Fixpoint sites_loop (guide_trace : trace) (ks : list nat)
    (st : particle_state) : result particle_state :=
  match ks with
  | [] => Ok st
  | k :: ks' => st' ← site_step guide_trace st k; sites_loop guide_trace ks' st'
  end.

(** [set(site["value"] for trace in (model_trace, guide_trace)
         for site in trace.nodes.values() if site["type"] == "param")] *)
Definition param_values (tr : trace) : list nat :=
  map (fun ns => value ns.2) (filter (fun ns => is_param ns.2 = true) (nodes tr)).

Definition trainable_params_of (model_trace guide_trace : trace) : gset nat :=
  list_to_set (param_values model_trace ++ param_values guide_trace).

(** The body of the loop over the trace pairs, for one pair. *)
Definition particle_step (self : Trace_ELBO) (elbo : pyval)
    (model_trace guide_trace : trace) : eff pyval :=
  st ← lift (sites_loop guide_trace (seq 0 (length (nodes model_trace)))
               (PState (PNum s_zero) (PNum s_zero) model_trace));
  q ← lift (v_div_nat (elbo_particle st) (num_particles self));
  elbo' ← lift (v_iadd elbo q);
  let trainable_params :=
    trainable_params_of (cur_model_trace st) guide_trace in
  if negb (bool_decide (trainable_params = ∅))
     && v_requires_grad (surrogate_elbo_particle st)
  then
    surrogate_loss_particle ←
      lift (v_div_nat (v_neg (surrogate_elbo_particle st))
              (num_particles self));
    _ ← emit (Backward surrogate_loss_particle);
    _ ← emit (MarkParamsActive trainable_params);
    mret elbo'
  else mret elbo'.

Fixpoint particles_loop (self : Trace_ELBO)
    (gen : list (result (trace * trace))) (elbo : pyval) : eff pyval :=
  match gen with
  | [] => mret elbo
  | next :: gen' =>
      pair ← lift next;
      elbo' ← particle_step self elbo pair.1 pair.2;
      particles_loop self gen' elbo'
  end.

Definition loss_and_grads (eng : Engine) (self : Trace_ELBO) : eff pyval :=
  elbo ← particles_loop self (_get_traces eng self) (PNum s_zero);
  let loss := v_neg elbo in
  _ ← warn_if_nan loss;
  mret loss.

(** Modelled from the spec: [check_model_guide_match] of [pyro.util], which
    is not part of the sources at hand: every sample site of the guide that
    is not auxiliary has a sample site of the same name in the model;
    otherwise the check raises.  The names of the sites the guide declares
    auxiliary are [auxiliary]. *)
Definition guide_site_matched (auxiliary : list string) (model_trace : trace)
    (ns : string * site) : bool :=
  negb (is_sample ns.2)
  || existsb (String.eqb ns.1) auxiliary
  || match assoc ns.1 (nodes model_trace) with
     | Some model_site => is_sample model_site
     | None => false
     end.

Definition check_model_guide_match_spec (auxiliary : list string)
    (model_trace guide_trace : trace) : result unit :=
  if forallb (guide_site_matched auxiliary model_trace) (nodes guide_trace)
  then Ok tt
  else Err (External "model and guide do not match").

(** ** The log-ratio in the words of the specification

    The value [compute_site_log_r] is specified to return, written without
    the loop, the accumulator and the stores of the implementation: the
    terms of the chosen sample sites, accumulated by shape and contracted
    to the target shape. *)

(** The log-ratio term of one sample site: its [batch_log_pdf], minus the
    log-density of the guide at that site when the site is not observed
    (taken at the shape of [batch_log_pdf]). *)
Definition log_ratio_term (guide_trace : trace) (name : string)
    (model_site : site) : result tensor :=
  model_term ← of_option (batch_log_pdf model_site) (KeyError "batch_log_pdf");
  if is_observed model_site then Ok model_term
  else
    guide_site ← of_option (assoc name (nodes guide_trace)) (KeyError name);
    sp ← of_option (score_parts guide_site) (KeyError "score_parts");
    t_binop_ s_sub model_term sp.1.1.

(** The terms of the sample sites [keep] selects, each detached and
    restricted to the dimensions it shares with the target site. *)
Fixpoint log_ratio_terms (keep : string -> bool)
    (stacks : list (string * list frame)) (guide_trace : trace)
    (target_site : string) (l : list (string * site))
  : result (list tensor) :=
  match l with
  | [] => Ok []
  | (name, model_site) :: l' =>
      if is_sample model_site && keep name
      then
        t ← log_ratio_term guide_trace name model_site;
        k ← n_compatible_indices stacks name target_site;
        ts ← log_ratio_terms keep stacks guide_trace target_site l';
        Ok (keep_rightmost (detach t) k :: ts)
      else log_ratio_terms keep stacks guide_trace target_site l'
  end.

Fixpoint accumulate (mv : MultiViewTensor) (ts : list tensor)
  : result MultiViewTensor :=
  match ts with
  | [] => Ok mv
  | t :: ts' => mv' ← mv_add_tensor mv t; accumulate mv' ts'
  end.

Definition sum_of_log_ratio_terms (keep : string -> bool)
    (model_trace guide_trace : trace) (target_site : string)
    (target_shape : list nat) : result tensor :=
  stacks ← of_option (iarange_stacks model_trace) (KeyError "iarange_stacks");
  ts ← log_ratio_terms keep stacks guide_trace target_site (nodes model_trace);
  mv ← accumulate [] ts;
  mv_contract mv target_shape.

(** The sum over the sample sites other than the target. *)
Definition other_sites_log_r (model_trace guide_trace : trace)
    (target_site : string) (target_shape : list nat) : result tensor :=
  sum_of_log_ratio_terms (fun name => negb (String.eqb name target_site))
    model_trace guide_trace target_site target_shape.

(** The sum over all the sample sites, the target among them. *)
Definition all_sites_log_r (model_trace guide_trace : trace)
    (target_site : string) (target_shape : list nat) : result tensor :=
  sum_of_log_ratio_terms (fun _ => true)
    model_trace guide_trace target_site target_shape.

(** ** Predicates of the statements *)

(** An accumulator all of whose entries are cut from the autograd graph. *)
Definition mv_detached (mv : MultiViewTensor) : Prop :=
  Forall (fun e => requires_grad e.2 = false) mv.

(** Two site records that agree on every field but [batch_log_pdf]. *)
Definition same_but_batch_log_pdf (s s' : site) : Prop :=
  stype s' = stype s /\ is_observed s' = is_observed s /\ value s' = value s
  /\ log_pdf s' = log_pdf s /\ score_parts s' = score_parts s.

Definition same_skeleton (l l' : list (string * site)) : Prop :=
  Forall2 (fun a b => b.1 = a.1 /\ same_but_batch_log_pdf a.2 b.2) l l'.

(** Particle [i] yields a trace pair, and [d] is the total log-density of
    its model trace minus that of its guide trace, as a plain number. *)
Definition particle_difference (eng : Engine) (self : Trace_ELBO)
    (i : nat) (d : R) : Prop :=
  exists model_trace guide_trace m g diff,
    get_traces_body eng self i = Ok (model_trace, guide_trace)
    /\ trace_log_pdf model_trace = Ok m
    /\ trace_log_pdf guide_trace = Ok g
    /\ t_binop s_sub m g = Ok diff
    /\ item diff = Ok d.

(** The average of [ds] over [n] particles, every term divided by [n]
    before it is added, from [0.0], in the order of the particles. *)
Definition average (ds : list R) (n : nat) : R :=
  fold_left (fun acc d => s_add acc (s_div d (s_of_nat n))) ds s_zero.

(** A Python value as a plain number: the number itself, or the only
    element of a tensor. *)
Definition v_item (a : pyval) : result R :=
  match a with
  | PNum x => Ok x
  | PTensor t => item t
  end.

Definition is_plain_number (a : pyval) : bool :=
  match a with
  | PNum _ => true
  | PTensor _ => false
  end.

Definition has_param_site (tr : trace) : bool :=
  existsb (fun ns => is_param ns.2) (nodes tr).

(** The state in which the loop over the sites of a trace pair ends. *)
Definition sites_result (model_trace guide_trace : trace)
  : result particle_state :=
  sites_loop guide_trace (seq 0 (length (nodes model_trace)))
    (PState (PNum s_zero) (PNum s_zero) model_trace).

(** The events of one particle: when a trace of the pair has a param site
    and the surrogate requires gradients, one backward pass, on the
    surrogate negated and divided by [num_particles], and the report of the
    param values of both traces; nothing otherwise. *)
Definition backward_events (self : Trace_ELBO)
    (model_trace guide_trace : trace) : list event :=
  match sites_result model_trace guide_trace with
  | Ok st =>
      match surrogate_elbo_particle st with
      | PTensor t =>
          if (has_param_site model_trace || has_param_site guide_trace)
             && requires_grad t
          then [Backward
                  (PTensor
                     (t_map (fun x => s_div x (s_of_nat (num_particles self)))
                        (t_map s_neg t)));
                MarkParamsActive
                  (list_to_set
                     (param_values model_trace ++ param_values guide_trace))]
          else []
      | PNum _ => []
      end
  | Err _ => []
  end.

(** A 0-dimensional tensor with its one element. *)
Definition is_scalar_tensor (t : tensor) : Prop :=
  shape t = [] /\ length (data t) = 1.

Definition is_latent (s : site) : bool :=
  is_sample s && negb (is_observed s).

(** The names of the sites of a mapping that satisfy [p], in order. *)
Definition names_where (p : site -> bool) (l : list (string * site))
  : list string :=
  map fst (List.filter (fun ns => p ns.2) l).

(** A trace pair on which the two ELBO computations can be compared: the
    site log-densities of the model are scalars, the names of the guide are
    distinct, the sample sites of the guide are the latent sample sites of
    the model, and the [log_pdf] of a guide site is the sum of the guide
    log-density of its [score_parts]. *)
Record matched_pair (model_trace guide_trace : trace) : Prop := {
  mp_model_scalar :
    forall name s t,
      In (name, s) (nodes model_trace) -> is_sample s = true ->
      log_pdf s = Some t -> is_scalar_tensor t;
  mp_guide_names : NoDup (map fst (nodes guide_trace));
  mp_same_latents :
    Permutation (names_where is_sample (nodes guide_trace))
                (names_where is_latent (nodes model_trace));
  mp_guide_parts :
    forall name s,
      In (name, s) (nodes guide_trace) -> is_sample s = true ->
      exists g sf ent,
        score_parts s = Some (g, sf, ent) /\ log_pdf s = Some (t_sum g)
}.

(** [a] is the number [x], as a Python number or as a scalar tensor. *)
Definition pv_value (a : pyval) (x : R) : Prop :=
  match a with
  | PNum y => y = x
  | PTensor t => shape t = [] /\ data t = [x]
  end.

Definition scalar_of (t : tensor) : R :=
  match data t with
  | x :: _ => x
  | [] => s_zero
  end.

Definition site_value (s : site) : R :=
  match log_pdf s with
  | Some t => scalar_of t
  | None => s_zero
  end.

(** The summed guide log-density at the site [name]. *)
Definition guide_density_at (guide_trace : trace) (name : string) : R :=
  match assoc name (nodes guide_trace) with
  | Some guide_site =>
      match score_parts guide_site with
      | Some (g, _, _) => fold_left s_add (data g) s_zero
      | None => s_zero
      end
  | None => s_zero
  end.

(** What the plain ELBO accumulator of [loss_and_grads] receives at one
    site, on numbers. *)
Definition elbo_step (guide_trace : trace) (a : R) (ns : string * site) : R :=
  if is_sample ns.2
  then if is_observed ns.2
       then s_add a (site_value ns.2)
       else s_sub (s_add a (site_value ns.2)) (guide_density_at guide_trace ns.1)
  else a.

(** The log-densities of the sample sites of a mapping, and the guide
    densities at its latent sites, in order. *)
Definition sample_values (l : list (string * site)) : list R :=
  map (fun ns => site_value ns.2) (List.filter (fun ns => is_sample ns.2) l).

Definition latent_densities (guide_trace : trace)
    (l : list (string * site)) : list R :=
  map (guide_density_at guide_trace) (names_where is_latent l).

(** Well-formed tensors in a trace pair: the tensors [compute_site_log_r]
    reads have as many elements as their shape says. *)
Definition mv_wf (mv : MultiViewTensor) : Prop :=
  Forall (fun e => e.1 = shape e.2 /\ wf_tensor e.2) mv.

Definition batch_log_pdfs_wf (l : list (string * site)) : Prop :=
  forall name s t,
    In (name, s) l -> batch_log_pdf s = Some t -> wf_tensor t.

Definition guide_log_pdfs_wf (l : list (string * site)) : Prop :=
  forall name s g sf ent,
    In (name, s) l -> score_parts s = Some (g, sf, ent) -> wf_tensor g.

Definition has_latent_site (tr : trace) : bool :=
  existsb (fun ns => is_latent ns.2) (nodes tr).

(** A guide all of whose sites are reparameterized: no site has a
    score-function term. *)
Definition reparameterized_guide (guide_trace : trace) : Prop :=
  forall name s g sf ent,
    In (name, s) (nodes guide_trace) ->
    score_parts s = Some (g, sf, ent) ->
    is_identically_zero sf = true.

(** Every sample site of a mapping passes [check_site_shape]. *)
Definition sample_sites_checked (eng : Engine) (self : Trace_ELBO)
    (l : list (string * site)) : Prop :=
  forall name s,
    In (name, s) l -> is_sample s = true ->
    check_site_shape eng s (max_iarange_nesting self) = Ok tt.

Definition has_sample_site (tr : trace) : bool :=
  existsb (fun ns => is_sample ns.2) (nodes tr).

(** The elements of the product [t * a], in row-major order: every element
    of [t] times the number [a], or the products of the elements of the two
    tensors once both are broadcast to their common shape; none when the
    shapes do not broadcast. *)
Definition product_elements (t : tensor) (a : pyval) : option (list R) :=
  match a with
  | PNum c => Some (map (fun x => s_mul x c) (data t))
  | PTensor u =>
      match broadcast_shapes (shape t) (shape u) with
      | Some s => Some (zip_with s_mul (expand_to t s) (expand_to u s))
      | None => None
      end
  end.

End TraceELBO.

Arguments tensor R : clear implicits.
Arguments pyval R : clear implicits.
Arguments site R : clear implicits.
Arguments trace R : clear implicits.
Arguments Engine R : clear implicits.
Arguments event R : clear implicits.
Arguments eff R : clear implicits.
Arguments Eff {R A} outcome events.
Arguments outcome {R A} e.
Arguments events {R A} e.
Arguments particle_state R : clear implicits.
Arguments MultiViewTensor R : clear implicits.

(** ** Concrete traces and engines

    Small model and guide pairs on which the definitions are evaluated. *)

Definition scalar_tensor {R} (x : R) (rg : bool) : tensor R := Tensor [] [x] rg.

Definition mk_sample {R} (obs : bool) (lp blp : tensor R) : site R :=
  Site "sample" obs 0 (Some lp) (Some blp) None.

Definition mk_guide_sample `{Scalar R} (g : tensor R) (sf ent : pyval R)
  : site R :=
  Site "sample" false 0 (Some (t_sum g)) (Some g) (Some (g, sf, ent)).

Definition mk_param {R} (id : nat) : site R :=
  Site "param" false id None None None.

Definition fixed_engine {R} (model_trace guide_trace : trace R) : Engine R := {|
  guide_get_trace := fun _ => Ok guide_trace;
  model_replay_get_trace := fun _ _ => Ok model_trace;
  check_model_guide_match := fun _ _ => Ok tt;
  prune_subsample_sites := fun t => t;
  compute_batch_log_pdf := fun t => Ok t;
  compute_score_parts := fun t => Ok t;
  check_site_shape := fun _ _ => Ok tt
|}.

(** The same engine with the structural check of the specification, for a
    guide whose auxiliary sites are [auxiliary]. *)
Definition checking_engine {R} (auxiliary : list string)
    (model_trace guide_trace : trace R) : Engine R := {|
  guide_get_trace := fun _ => Ok guide_trace;
  model_replay_get_trace := fun _ _ => Ok model_trace;
  check_model_guide_match := check_model_guide_match_spec auxiliary;
  prune_subsample_sites := fun t => t;
  compute_batch_log_pdf := fun t => Ok t;
  compute_score_parts := fun t => Ok t;
  check_site_shape := fun _ _ => Ok tt
|}.

Definition estimator (n : nat) : Trace_ELBO :=
  {| num_particles := n; max_iarange_nesting := None |}.

(** Model: latent [x], observed [y].  Guide: parameter [mu], latent [x]
    sampled without reparameterization (a score-function term). *)
Definition model_xy : trace float :=
  Trace
    [("x", mk_sample false (scalar_tensor (-1.5)%float true)
                           (scalar_tensor (-1.5)%float true));
     ("y", mk_sample true (scalar_tensor (-2)%float true)
                          (scalar_tensor (-2)%float true))]
    (Some [("x", []); ("y", [])]).

Definition guide_x : trace float :=
  Trace
    [("mu", mk_param 7);
     ("x", mk_guide_sample (scalar_tensor (-0.5)%float true)
             (PTensor (scalar_tensor (-0.5)%float true)) (PNum 0%float))]
    (Some [("x", [])]).

(** Model with the observed site [y] only, guide with nothing but a
    parameter. *)
Definition model_y : trace float :=
  Trace
    [("y", mk_sample true (scalar_tensor (-2)%float true)
                          (scalar_tensor (-2)%float true))]
    (Some [("y", [])]).

Definition guide_empty : trace float :=
  Trace [("mu", mk_param 7)] (Some []).

(** A pair whose densities are infinite: the difference is NaN. *)
Definition model_inf : trace float :=
  Trace
    [("x", mk_sample false (scalar_tensor infinity false)
                           (scalar_tensor infinity false))]
    (Some [("x", [])]).

Definition guide_inf : trace float :=
  Trace
    [("x", mk_guide_sample (scalar_tensor infinity false)
             (PNum 0%float) (PNum 0%float))]
    (Some [("x", [])]).

(** Exact arithmetic.  Model: latent [x], observed [y].  Guide: latent [x]. *)
Definition modelZ : trace Z :=
  Trace
    [("x", mk_sample false (scalar_tensor (-3)%Z false)
                           (scalar_tensor (-3)%Z false));
     ("y", mk_sample true (scalar_tensor (-4)%Z false)
                          (scalar_tensor (-4)%Z false))]
    (Some [("x", []); ("y", [])]).

Definition guideZ : trace Z :=
  Trace
    [("x", mk_guide_sample (scalar_tensor (-1)%Z false)
             (PNum 0%Z) (PNum 0%Z))]
    (Some [("x", [])]).

(** [model_xy] as one call of [compute_site_log_r] leaves it. *)
Definition model_xy_after : trace float :=
  Trace
    [("x", mk_sample false (scalar_tensor (-1.5)%float true)
                           (scalar_tensor (-1)%float true));
     ("y", mk_sample true (scalar_tensor (-2)%float true)
                          (scalar_tensor (-2)%float true))]
    (Some [("x", []); ("y", [])]).

(** [modelZ] as one call of [compute_site_log_r] leaves it. *)
Definition modelZ_after : trace Z :=
  Trace
    [("x", mk_sample false (scalar_tensor (-3)%Z false)
                           (scalar_tensor (-2)%Z false));
     ("y", mk_sample true (scalar_tensor (-4)%Z false)
                          (scalar_tensor (-4)%Z false))]
    (Some [("x", []); ("y", [])]).

(** The same guide with an auxiliary latent site [aux] that the model does
    not have. *)
Definition guideZ_aux : trace Z :=
  Trace
    [("x", mk_guide_sample (scalar_tensor (-1)%Z false)
             (PNum 0%Z) (PNum 0%Z));
     ("aux", mk_guide_sample (scalar_tensor (-5)%Z false)
             (PNum 0%Z) (PNum 0%Z))]
    (Some [("x", []); ("aux", [])]).

(** A guide with the latent site [z], which the model does not have and
    which is not auxiliary, and an engine whose second particle draws it:
    the first particle yields [model_xy] and [guide_x], the second fails the
    structural check. *)
Definition guide_xz : trace float :=
  Trace
    [("mu", mk_param 7);
     ("x", mk_guide_sample (scalar_tensor (-0.5)%float true)
             (PTensor (scalar_tensor (-0.5)%float true)) (PNum 0%float));
     ("z", mk_guide_sample (scalar_tensor (-0.25)%float true)
             (PNum 0%float) (PNum 0%float))]
    (Some [("x", []); ("z", [])]).

Definition second_particle_mismatch : Engine float := {|
  guide_get_trace := fun i => Ok (if i =? 0 then guide_x else guide_xz);
  model_replay_get_trace := fun _ _ => Ok model_xy;
  check_model_guide_match := check_model_guide_match_spec [];
  prune_subsample_sites := fun t => t;
  compute_batch_log_pdf := fun t => Ok t;
  compute_score_parts := fun t => Ok t;
  check_site_shape := fun _ _ => Ok tt
|}.

(** Exact arithmetic, inside one plate of size 2.  Model: latent [x],
    observed [y].  Guide: latent [x] with a score-function term and an
    entropy term, both of the batch shape.  Then the model trace as one call
    of [compute_site_log_r] leaves it, and the state of the loop over the
    sites before and after the site [x]. *)
Definition model_plate : trace Z :=
  Trace
    [("x", mk_sample false (scalar_tensor (-3)%Z false)
                           (Tensor [2] [-1; -2]%Z false));
     ("y", mk_sample true (scalar_tensor (-4)%Z false)
                          (Tensor [2] [-2; -2]%Z false))]
    (Some [("x", [("data", (-1)%Z)]); ("y", [("data", (-1)%Z)])]).

Definition guide_plate : trace Z :=
  Trace
    [("x", mk_guide_sample (Tensor [2] [-1; -1]%Z false)
             (PTensor (Tensor [2] [2; 3]%Z true))
             (PTensor (Tensor [2] [1; 4]%Z true)))]
    (Some [("x", [("data", (-1)%Z)])]).

Definition model_plate_after : trace Z :=
  Trace
    [("x", mk_sample false (scalar_tensor (-3)%Z false)
                           (Tensor [2] [0; -1]%Z false));
     ("y", mk_sample true (scalar_tensor (-4)%Z false)
                          (Tensor [2] [-2; -2]%Z false))]
    (Some [("x", [("data", (-1)%Z)]); ("y", [("data", (-1)%Z)])]).

Definition state_plate_before : particle_state Z :=
  PState (PNum 0%Z) (PNum 0%Z) model_plate.

Definition state_plate_after : particle_state Z :=
  PState (PTensor (scalar_tensor (-1)%Z false))
         (PTensor (scalar_tensor (-21)%Z true)) model_plate_after.

(** The state in which the loop over the sites of [modelZ] ends. *)
Definition stateZ_end : particle_state Z :=
  PState (PTensor (scalar_tensor (-6)%Z false))
         (PTensor (scalar_tensor (-7)%Z false)) modelZ.

(** * cleannb: [tutorial/source/cleannb.py]

    The script rewrites the kernel metadata of notebook files.  A notebook
    is the JSON value that [nbformat.read] returns; reading and writing the
    file format is [nbformat]'s, and is a parameter. *)

Inductive json : Type :=
| JNull
| JBool (b : bool)
| JInt (n : Z)
| JFloat (x : float)
| JStr (s : string)
| JList (l : list json)
| JObj (m : list (string * json)).

Inductive nb_exn : Type :=
| NbKeyError (key : string)
| NbTypeError
| NbIOError (path : string)
| NbReadError (msg : string)
| NbWriteError (msg : string).

Inductive nbres (A : Type) : Type :=
| Done (a : A)
| Raised (e : nb_exn).
Arguments Done {A} a.
Arguments Raised {A} e.

#[global] Instance nbres_ret : MRet nbres := fun _ a => Done a.
#[global] Instance nbres_bind : MBind nbres := fun _ _ f m =>
  match m with
  | Done a => f a
  | Raised e => Raised e
  end.

(** [v[key]]: [KeyError] on a dict without the key, [TypeError] on a value
    that is not a dict. *)
Definition getitem (v : json) (key : string) : nbres json :=
  match v with
  | JObj m =>
      match assoc key m with
      | Some x => Done x
      | None => Raised (NbKeyError key)
      end
  | _ => Raised NbTypeError
  end.

(** The store of a dict: the value of a key that is present is replaced
    where it stands, a new key is added at the end. *)
Fixpoint dict_set (key : string) (x : json) (m : list (string * json))
  : list (string * json) :=
  match m with
  | [] => [(key, x)]
  | (k, y) :: m' =>
      if String.eqb key k then (k, x) :: m' else (k, y) :: dict_set key x m'
  end.

(** [v[key] = x] *)
Definition setitem (v : json) (key : string) (x : json) : nbres json :=
  match v with
  | JObj m => Done (JObj (dict_set key x m))
  | _ => Raised NbTypeError
  end.

(** [v[p1]...[pn][key] = x]: the dicts on the way are read, the innermost
    one is stored to, and the store is seen through every dict that holds
    it. *)
Fixpoint setitem_at (path : list string) (key : string) (x : json) (v : json)
  : nbres json :=
  match path with
  | [] => setitem v key x
  | p :: path' =>
      child ← getitem v p;
      child' ← setitem_at path' key x child;
      setitem v p child'
  end.

(** Lines 11 to 15 of [cleannb], on the notebook read. *)
Definition clean_metadata (nb : json) : nbres json :=
  nb ← setitem_at ["metadata"; "kernelspec"] "display_name"
         (JStr "Python 2") nb;
  nb ← setitem_at ["metadata"; "kernelspec"] "name" (JStr "python2") nb;
  nb ← setitem_at ["metadata"; "language_info"; "codemirror_mode"] "version"
         (JInt 2) nb;
  nb ← setitem_at ["metadata"; "language_info"] "pygments_lexer"
         (JStr "ipython2") nb;
  setitem_at ["metadata"; "language_info"] "version" (JStr "2.7.14") nb.

(** The file format, which is [nbformat]'s: the contents of files, with
    the content [nb_empty] of a file that has just been opened with mode
    ["w"]; [nbformat.read(f, as_version=nbformat.NO_CONVERT)] on the content
    of a file; and [nbformat.write(nb, f)] on a file just opened with mode
    ["w"]: what the file holds after the call, and how the call ends.  Both
    calls may raise. *)
Record NbFormat : Type := {
  nb_content : Type;
  nb_empty : nb_content;
  nb_read : nb_content -> nbres json;
  nb_write : json -> nb_content * nbres unit
}.

(** Lines 8 to 15 of [cleannb]: the notebook read from the file, after the
    five stores.  A file that cannot be opened for reading is a file the
    mapping does not have. *)
Definition read_and_clean (fmt : NbFormat) (nbfile : string)
    (fs : gmap string (nb_content fmt)) : nbres json :=
  match fs !! nbfile with
  | None => Raised (NbIOError nbfile)
  | Some c => nb_read fmt c ≫= clean_metadata
  end.

(** [cleannb(nbfile)], on the files by name: the files as the call leaves
    them, and how it ends.  The file is opened for writing, which truncates
    it, only after the five stores; an exception of [nbformat.write] leaves
    the file truncated, with what the call has written. *)
Definition cleannb (fmt : NbFormat) (nbfile : string)
    (fs : gmap string (nb_content fmt))
  : gmap string (nb_content fmt) * nbres unit :=
  match read_and_clean fmt nbfile fs with
  | Raised e => (fs, Raised e)
  | Done nb =>
      let fs := <[nbfile := nb_empty fmt]> fs in
      let '(c, r) := nb_write fmt nb in
      (<[nbfile := c]> fs, r)
  end.

(** The loop of the script over [args.nbfiles]. *)
Fixpoint main (fmt : NbFormat) (nbfiles : list string)
    (fs : gmap string (nb_content fmt))
  : gmap string (nb_content fmt) * nbres unit :=
  match nbfiles with
  | [] => (fs, Done tt)
  | nbfile :: nbfiles' =>
      match cleannb fmt nbfile fs with
      | (fs', Done _) => main fmt nbfiles' fs'
      | (fs', Raised e) => (fs', Raised e)
      end
  end.

(** ** Predicates of the statements about cleannb *)

(** [v[q1]...[qn]] *)
Fixpoint get_path (q : list string) (v : json) : nbres json :=
  match q with
  | [] => Done v
  | k :: q' => getitem v k ≫= get_path q'
  end.

(** Two paths that part at some key. *)
Fixpoint diverge (q r : list string) : bool :=
  match q, r with
  | a :: q', b :: r' => if String.eqb a b then diverge q' r' else true
  | _, _ => false
  end.

Fixpoint is_prefix (r c : list string) : bool :=
  match r, c with
  | [] , _ => true
  | a :: r', b :: c' => String.eqb a b && is_prefix r' c'
  | _ :: _, [] => false
  end.

Definition is_dict_at (c : list string) (v : json) : Prop :=
  exists m, get_path c v = Done (JObj m).

(** The five entries the script writes. *)
Definition cleaned_entries : list (list string * json) :=
  [(["metadata"; "kernelspec"; "display_name"], JStr "Python 2");
   (["metadata"; "kernelspec"; "name"], JStr "python2");
   (["metadata"; "language_info"; "codemirror_mode"; "version"], JInt 2);
   (["metadata"; "language_info"; "pygments_lexer"], JStr "ipython2");
   (["metadata"; "language_info"; "version"], JStr "2.7.14")].

Definition cleaned (nb : json) : Prop :=
  Forall (fun e => get_path e.1 nb = Done e.2) cleaned_entries.

(** The file [nbfile] holds a notebook with the five entries written. *)
Definition holds_cleaned (fmt : NbFormat) (fs : gmap string (nb_content fmt))
    (nbfile : string) : Prop :=
  exists nb c,
    fs !! nbfile = Some c /\ nb_write fmt nb = (c, Done tt) /\ cleaned nb.

(** A file format that reads back what it wrote, whenever the write
    returned. *)
Definition round_trip (fmt : NbFormat) : Prop :=
  forall nb c, nb_write fmt nb = (c, Done tt) -> nb_read fmt c = Done nb.

(** The format whose file contents are the notebooks themselves; an empty
    file holds none, and reading it raises.  Writing never raises. *)
Definition json_format : NbFormat := {|
  nb_content := option json;
  nb_empty := None;
  nb_read := fun c =>
    match c with
    | Some nb => Done nb
    | None => Raised (NbReadError "empty file")
    end;
  nb_write := fun nb => (Some nb, Done tt)
|}.


(** A Python 3 notebook, one without [language_info], and one whose
    [kernelspec] is a string. *)
Definition notebook_py3 : json :=
  JObj
    [("cells", JList [JObj [("cell_type", JStr "code");
                            ("execution_count", JInt 1);
                            ("source", JList [JStr "import pyro"])]]);
     ("metadata",
      JObj [("kernelspec",
             JObj [("display_name", JStr "Python 3");
                   ("language", JStr "python");
                   ("name", JStr "python3")]);
            ("language_info",
             JObj [("codemirror_mode",
                    JObj [("name", JStr "ipython"); ("version", JInt 3)]);
                   ("file_extension", JStr ".py");
                   ("name", JStr "python");
                   ("pygments_lexer", JStr "ipython3");
                   ("version", JStr "3.6.4")])]);
     ("nbformat", JInt 4);
     ("nbformat_minor", JInt 2)].

Definition notebook_py3_cleaned : json :=
  JObj
    [("cells", JList [JObj [("cell_type", JStr "code");
                            ("execution_count", JInt 1);
                            ("source", JList [JStr "import pyro"])]]);
     ("metadata",
      JObj [("kernelspec",
             JObj [("display_name", JStr "Python 2");
                   ("language", JStr "python");
                   ("name", JStr "python2")]);
            ("language_info",
             JObj [("codemirror_mode",
                    JObj [("name", JStr "ipython"); ("version", JInt 2)]);
                   ("file_extension", JStr ".py");
                   ("name", JStr "python");
                   ("pygments_lexer", JStr "ipython2");
                   ("version", JStr "2.7.14")])]);
     ("nbformat", JInt 4);
     ("nbformat_minor", JInt 2)].

Definition notebook_no_language_info : json :=
  JObj
    [("cells", JList []);
     ("metadata",
      JObj [("kernelspec",
             JObj [("display_name", JStr "Python 3");
                   ("name", JStr "python3")])]);
     ("nbformat", JInt 4)].

Definition three_files : gmap string (option json) :=
  <["a.ipynb" := Some notebook_py3]>
    (<["b.ipynb" := Some notebook_no_language_info]>
       (<["c.ipynb" := Some notebook_py3]> ∅)).



(** * Properties *)

#[global] Instance Z_exact : ExactScalar Z.
Proof.
  split; simpl; intros; try lia.
  apply Z.div_1_r.
Qed.

Section Properties.
Context {R : Type} `{Scalar R}.

Lemma bind_Ok {A B} (m : result A) (f : A -> result B) (b : B) :
  m ≫= f = Ok b -> exists a, m = Ok a /\ f a = Ok b.
Proof.
  destruct m as [a|e]; simpl; intros Hb.
  - exists a. split; [reflexivity | exact Hb].
  - discriminate.
Qed.

Lemma bind_ret_r {A} (m : result A) : m ≫= Ok = m.
Proof. destruct m; reflexivity. Qed.

Lemma fmap_Ok {A B} (g : A -> B) (m : result A) (b : B) :
  g <$> m = Ok b -> exists a, m = Ok a /\ b = g a.
Proof.
  destruct m as [a|e]; simpl; intros Hb; [|discriminate].
  injection Hb as <-. eauto.
Qed.

Ltac inv_res :=
  repeat match goal with
  | Hx : mbind _ _ = Ok _ |- _ =>
      apply bind_Ok in Hx; destruct Hx as (? & ? & Hx)
  | Hx : fmap _ _ = Ok _ |- _ =>
      apply fmap_Ok in Hx; destruct Hx as (? & Hx & ?)
  | Hx : Ok _ = Ok _ |- _ => injection Hx as Hx
  | Hx : Err _ = Ok _ |- _ => discriminate Hx
  | Hx : (let '(_, _) := ?p in _) = Ok _ |- _ => destruct p
  | Hx : of_option ?o _ = Ok _ |- _ =>
      destruct o eqn:?; simpl in Hx; [|discriminate Hx]
  | Hx : (if ?c then _ else _) = Ok _ |- _ => destruct c eqn:?
  end; subst.

(** *** The accumulation step of [compute_site_log_r] *)

Lemma log_r_accumulate (log_r : MultiViewTensor R) (t : tensor R) (k : nat) :
  mv_sum_leftmost_all_but (mv_of_tensor t) k ≫= mv_add log_r
  = mv_add_tensor log_r (keep_rightmost t k).
Proof.
  unfold mv_sum_leftmost_all_but, mv_of_tensor. simpl.
  apply bind_ret_r.
Qed.

(** *** Detached accumulators *)

Lemma t_binop_requires_grad f (x y z : tensor R) :
  t_binop f x y = Ok z ->
  requires_grad z = requires_grad x || requires_grad y.
Proof.
  unfold t_binop. destruct (broadcast_shapes _ _); intros Hz; inv_res.
  reflexivity.
Qed.

Lemma mv_add_tensor_detached (mv mv' : MultiViewTensor R) (t : tensor R) :
  mv_detached mv -> requires_grad t = false ->
  mv_add_tensor mv t = Ok mv' -> mv_detached mv'.
Proof.
  unfold mv_detached. intros Hmv Ht. revert mv'.
  induction Hmv as [|[s u] mv Hu Hmv IH]; simpl; intros mv' Hadd.
  - inv_res. constructor; [exact Ht | constructor].
  - destruct (decide (s = shape t)); inv_res.
    + constructor; [|exact Hmv]. simpl in *.
      erewrite t_binop_requires_grad by eassumption.
      rewrite Hu, Ht. reflexivity.
    + constructor; [exact Hu | eauto].
Qed.

Lemma log_r_loop_detached stacks guide_trace target_site l :
  forall log_r log_r' l',
    mv_detached log_r ->
    log_r_loop stacks guide_trace target_site l log_r = Ok (log_r', l') ->
    mv_detached log_r'.
Proof.
  induction l as [|[name model_site] l IH]; simpl; intros log_r log_r' l' Hd Hl.
  - inv_res. exact Hd.
  - destruct (is_sample model_site); inv_res.
    + eapply IH; [|eassumption].
      eapply mv_add_tensor_detached; [exact Hd | | eassumption].
      reflexivity.
    + eapply IH; eassumption.
Qed.

Lemma mv_contract_from_detached (mv : MultiViewTensor R) target_shape :
  forall acc r,
    requires_grad acc = false -> mv_detached mv ->
    mv_contract_from acc mv target_shape = Ok r ->
    requires_grad r = false.
Proof.
  induction mv as [|[s t] mv IH]; simpl; intros acc r Hacc Hmv Hr.
  - inv_res. exact Hacc.
  - inversion Hmv as [|? ? Ht Hmv']; subst. simpl in Ht.
    inv_res. eapply IH; [|exact Hmv'|eassumption].
    erewrite t_binop_requires_grad by eassumption.
    rewrite Hacc. simpl.
    match goal with
    | Hc : contract_term _ _ = Ok _ |- _ =>
        unfold contract_term in Hc; inv_res; simpl; exact Ht
    end.
Qed.

(** C9: whatever the sites of the model trace, observed or latent, the
    tensor [compute_site_log_r] returns is cut from the autograd graph:
    every term is detached before it is accumulated, and accumulation and
    contraction of detached terms stay detached. *)
Theorem compute_site_log_r_detached
    (model_trace guide_trace : trace R) (target_site : string)
    (target_shape : list nat) (r : tensor R) (model_trace' : trace R) :
  compute_site_log_r model_trace guide_trace target_site target_shape
    = Ok (r, model_trace') ->
  requires_grad r = false.
Proof.
  unfold compute_site_log_r. intros Hc. inv_res.
  eapply mv_contract_from_detached; [| |eassumption].
  - reflexivity.
  - eapply log_r_loop_detached; [|eassumption]. constructor.
Qed.

(** *** [compute_site_log_r] against the sum of the log-ratio terms *)

Lemma log_r_term_of_term guide_trace name (model_site model_site' : site R)
    (t : tensor R) :
  log_r_term_of guide_trace name model_site = Ok (t, model_site') ->
  log_ratio_term guide_trace name model_site = Ok t.
Proof.
  unfold log_r_term_of, log_ratio_term. intros Ht.
  destruct (batch_log_pdf model_site) as [b|]; simpl in *; [|discriminate].
  destruct (is_observed model_site); simpl in *.
  - inv_res. reflexivity.
  - destruct (of_option (assoc name (nodes guide_trace)) _) as [gs|];
      simpl in *; [|discriminate].
    destruct (of_option (score_parts gs) _) as [[[g sf] ent]|];
      simpl in *; [|discriminate].
    destruct (t_binop_ s_sub b g); simpl in *; inv_res. reflexivity.
Qed.

Lemma log_r_loop_terms stacks guide_trace target_site l :
  forall log_r log_r' l',
    log_r_loop stacks guide_trace target_site l log_r = Ok (log_r', l') ->
    exists ts,
      log_ratio_terms (fun _ => true) stacks guide_trace target_site l = Ok ts
      /\ accumulate log_r ts = Ok log_r'.
Proof.
  induction l as [|[name model_site] l IH]; simpl; intros log_r log_r' l' Hl.
  - inv_res. exists []. split; reflexivity.
  - destruct (is_sample model_site); simpl; inv_res.
    + match goal with
      | Hl' : log_r_loop _ _ _ l _ = Ok _ |- _ =>
          destruct (IH _ _ _ Hl') as (ts & Hts & Hacc)
      end.
      match goal with
      | Ht : log_r_term_of _ _ _ = Ok _ |- _ =>
          rewrite (log_r_term_of_term _ _ _ _ _ Ht)
      end.
      simpl.
      match goal with
      | Hk : n_compatible_indices _ _ _ = Ok _ |- _ => rewrite Hk
      end.
      simpl. rewrite Hts. simpl. eexists. split; [reflexivity|].
      simpl.
      match goal with
      | Ha : mv_add_tensor _ _ = Ok _ |- _ => rewrite Ha
      end.
      exact Hacc.
    + eauto.
Qed.

Lemma bdim_refl (a : nat) : bdim a a = Some a.
Proof. unfold bdim. rewrite Nat.eqb_refl. reflexivity. Qed.

Lemma bshape_refl (s : list nat) : bshape s s = Some s.
Proof.
  induction s as [|a s IH]; simpl; [reflexivity|].
  rewrite bdim_refl, IH. reflexivity.
Qed.

Lemma pad_shape_self (s : list nat) : pad_shape (length s) s = s.
Proof. unfold pad_shape. rewrite Nat.sub_diag. reflexivity. Qed.

Lemma broadcast_shapes_refl (s : list nat) : broadcast_shapes s s = Some s.
Proof.
  unfold broadcast_shapes. rewrite Nat.max_id, pad_shape_self.
  apply bshape_refl.
Qed.

Lemma contract_term_shape (t u : tensor R) target_shape :
  contract_term t target_shape = Ok u -> shape u = target_shape.
Proof. unfold contract_term. intros Hu. inv_res. reflexivity. Qed.

Lemma mv_contract_from_shape (mv : MultiViewTensor R) target_shape :
  forall acc r,
    shape acc = target_shape ->
    mv_contract_from acc mv target_shape = Ok r ->
    shape r = target_shape.
Proof.
  induction mv as [|[s t] mv IH]; simpl; intros acc r Hacc Hr.
  - inv_res. reflexivity.
  - inv_res. eapply IH; [|eassumption].
    match goal with
    | Hc : contract_term _ _ = Ok ?u, Hb : t_binop _ _ ?u = Ok _ |- _ =>
        apply contract_term_shape in Hc; unfold t_binop in Hb;
        rewrite Hc, broadcast_shapes_refl in Hb; inv_res; reflexivity
    end.
Qed.

(** *** What a call of [compute_site_log_r] leaves of the model trace *)

Lemma same_but_batch_log_pdf_refl (s : site R) : same_but_batch_log_pdf s s.
Proof. repeat split. Qed.

Lemma same_skeleton_refl (l : list (string * site R)) : same_skeleton l l.
Proof.
  induction l; constructor; [|assumption].
  split; [reflexivity | apply same_but_batch_log_pdf_refl].
Qed.

Lemma same_skeleton_trans (l1 l2 l3 : list (string * site R)) :
  same_skeleton l1 l2 -> same_skeleton l2 l3 -> same_skeleton l1 l3.
Proof.
  intros H12. revert l3.
  induction H12 as [|a b l1 l2 (Hn & H1 & H2 & H3 & H4 & H5) _ IH];
    intros l3 H23; inversion H23 as [|? c ? l3' (Hn' & G1 & G2 & G3 & G4 & G5) H23']; subst.
  - constructor.
  - constructor; [|apply IH; assumption].
    split; [congruence|]. repeat split; congruence.
Qed.

Lemma log_r_term_of_frame guide_trace name (model_site model_site' : site R)
    (t : tensor R) :
  log_r_term_of guide_trace name model_site = Ok (t, model_site') ->
  same_but_batch_log_pdf model_site model_site'.
Proof.
  unfold log_r_term_of. intros Ht. inv_res.
  - repeat split.
  - apply same_but_batch_log_pdf_refl.
Qed.

Lemma log_r_loop_frame stacks guide_trace target_site l :
  forall log_r log_r' l',
    log_r_loop stacks guide_trace target_site l log_r = Ok (log_r', l') ->
    same_skeleton l l'.
Proof.
  induction l as [|[name model_site] l IH]; simpl; intros log_r log_r' l' Hl.
  - inv_res. constructor.
  - destruct (is_sample model_site); inv_res.
    + constructor; [|eapply IH; eassumption]. split; [reflexivity|].
      eapply log_r_term_of_frame; eassumption.
    + constructor; [|eapply IH; eassumption]. split; [reflexivity|].
      apply same_but_batch_log_pdf_refl.
Qed.

Lemma compute_site_log_r_frame (model_trace guide_trace : trace R)
    target_site target_shape (r : tensor R) (model_trace' : trace R) :
  compute_site_log_r model_trace guide_trace target_site target_shape
    = Ok (r, model_trace') ->
  same_skeleton (nodes model_trace) (nodes model_trace')
  /\ iarange_stacks model_trace' = iarange_stacks model_trace.
Proof.
  unfold compute_site_log_r. intros Hc. inv_res. simpl.
  split; [|reflexivity]. eapply log_r_loop_frame; eassumption.
Qed.


(** *** The effect monad *)

Lemma outcome_bind {A B} (m : eff R A) (f : A -> eff R B) :
  outcome (m ≫= f)
  = match outcome m with Ok a => outcome (f a) | Err e => Err e end.
Proof. unfold mbind, eff_bind. destruct (outcome m); reflexivity. Qed.

Lemma events_bind {A B} (m : eff R A) (f : A -> eff R B) :
  events (m ≫= f)
  = match outcome m with
    | Ok a => events m ++ events (f a)
    | Err _ => events m
    end.
Proof. unfold mbind, eff_bind. destruct (outcome m); reflexivity. Qed.

Lemma outcome_warn_if_nan (v : pyval R) : outcome (warn_if_nan v) = Ok tt.
Proof. unfold warn_if_nan. destruct (is_nan v); reflexivity. Qed.

(** *** loss *)

Lemma loss_outcome (eng : Engine R) (self : Trace_ELBO) :
  outcome (loss eng self)
  = s_neg <$> loss_loop self (_get_traces eng self) s_zero.
Proof.
  unfold loss. rewrite outcome_bind. simpl.
  destruct (loss_loop _ _ _); simpl; [|reflexivity].
  rewrite outcome_bind, outcome_warn_if_nan. reflexivity.
Qed.

Lemma loss_events (eng : Engine R) (self : Trace_ELBO) :
  events (loss eng self)
  = match loss_loop self (_get_traces eng self) s_zero with
    | Ok elbo => events (warn_if_nan (PNum (s_neg elbo)))
    | Err _ => []
    end.
Proof.
  unfold loss. rewrite events_bind. simpl.
  destruct (loss_loop _ _ _); simpl; [|reflexivity].
  rewrite events_bind, outcome_warn_if_nan. simpl.
  apply app_nil_r.
Qed.

Lemma loss_loop_average (eng : Engine R) (self : Trace_ELBO) :
  num_particles self <> 0 ->
  forall (particles : list nat) (ds : list R) (elbo : R),
    Forall2 (particle_difference eng self) particles ds ->
    loss_loop self (map (get_traces_body eng self) particles) elbo
    = Ok (fold_left
            (fun acc d => s_add acc (s_div d (s_of_nat (num_particles self))))
            ds elbo).
Proof.
  intros Hn particles ds elbo Hds. revert elbo.
  induction Hds as [|i d particles ds Hd _ IH]; intros elbo; simpl.
  - reflexivity.
  - destruct Hd as (mt & gt & m & g & diff & Hp & Hm & Hg & Hdiff & Hitem).
    rewrite Hp. simpl. unfold elbo_particle_of.
    rewrite Hm. simpl. rewrite Hg. simpl. rewrite Hdiff. simpl.
    rewrite Hitem. simpl.
    destruct (Nat.eqb_spec (num_particles self) 0) as [E|_]; [contradiction|].
    simpl. apply IH.
Qed.

(** C3: when each of the [num_particles] particles yields its trace pair and
    the difference of the two total log-densities as a plain number, [loss]
    returns the negation of the average of these differences. *)
Theorem loss_negated_average (eng : Engine R) (self : Trace_ELBO)
    (ds : list R) :
  0 < num_particles self ->
  Forall2 (particle_difference eng self) (seq 0 (num_particles self)) ds ->
  outcome (loss eng self) = Ok (s_neg (average ds (num_particles self))).
Proof.
  intros Hn Hds. rewrite loss_outcome. unfold _get_traces.
  rewrite (loss_loop_average eng self) with (ds := ds); [reflexivity | lia | exact Hds].
Qed.

(** *** num_particles = 0 *)

(** C8, as the code has it: with [num_particles = 0] neither entry point
    raises; no trace pair is generated, nothing is divided, no backward pass
    runs, and both return the negation of [0.0]. *)
Theorem zero_particles_return_negated_zero (eng : Engine R)
    (self : Trace_ELBO) :
  num_particles self = 0 ->
  _get_traces eng self = []
  /\ outcome (loss eng self) = Ok (s_neg s_zero)
  /\ events (loss eng self) = events (warn_if_nan (PNum (s_neg s_zero)))
  /\ outcome (loss_and_grads eng self) = Ok (PNum (s_neg s_zero))
  /\ events (loss_and_grads eng self)
     = events (warn_if_nan (PNum (s_neg s_zero))).
Proof.
  intros Hn.
  assert (Hgen : _get_traces eng self = []).
  { unfold _get_traces. rewrite Hn. reflexivity. }
  split; [exact Hgen|].
  rewrite loss_outcome, loss_events. unfold loss_and_grads.
  rewrite Hgen. simpl.
  unfold warn_if_nan, is_nan.
  destruct (s_is_nan (s_neg s_zero)); repeat split.
Qed.

(** *** loss_and_grads *)

Lemma loss_and_grads_outcome (eng : Engine R) (self : Trace_ELBO) :
  outcome (loss_and_grads eng self)
  = v_neg <$> outcome (particles_loop self (_get_traces eng self)
                         (PNum s_zero)).
Proof.
  unfold loss_and_grads. rewrite outcome_bind.
  destruct (outcome (particles_loop _ _ _)); simpl; [|reflexivity].
  rewrite outcome_bind, outcome_warn_if_nan. reflexivity.
Qed.

Lemma loss_and_grads_events (eng : Engine R) (self : Trace_ELBO) :
  events (loss_and_grads eng self)
  = events (particles_loop self (_get_traces eng self) (PNum s_zero))
    ++ match outcome (particles_loop self (_get_traces eng self)
                        (PNum s_zero)) with
       | Ok elbo => events (warn_if_nan (v_neg elbo))
       | Err _ => []
       end.
Proof.
  unfold loss_and_grads. rewrite events_bind.
  destruct (outcome (particles_loop _ _ _)); simpl.
  - rewrite events_bind, outcome_warn_if_nan. simpl.
    rewrite app_nil_r. reflexivity.
  - rewrite app_nil_r. reflexivity.
Qed.

(** C7: when the loop over the particles ends and the negated accumulator
    is NaN, [loss] and [loss_and_grads] do not raise: they emit the warning
    (after the events of the loop) and return the NaN value. *)
Theorem nan_loss_warned_and_returned (eng : Engine R) (self : Trace_ELBO) :
  (forall elbo,
      loss_loop self (_get_traces eng self) s_zero = Ok elbo ->
      s_is_nan (s_neg elbo) = true ->
      loss eng self = Eff (Ok (s_neg elbo)) [Warn "Encountered NAN loss"])
  /\ (forall elbo,
         outcome (particles_loop self (_get_traces eng self) (PNum s_zero))
           = Ok elbo ->
         is_nan (v_neg elbo) = true ->
         outcome (loss_and_grads eng self) = Ok (v_neg elbo)
         /\ events (loss_and_grads eng self)
            = events (particles_loop self (_get_traces eng self)
                        (PNum s_zero))
              ++ [Warn "Encountered NAN loss"]).
Proof.
  split.
  - intros elbo Hloop Hnan.
    unfold loss. rewrite Hloop.
    unfold mbind, eff_bind, warn_if_nan, is_nan. simpl.
    rewrite Hnan. reflexivity.
  - intros elbo Hloop Hnan.
    rewrite loss_and_grads_outcome, loss_and_grads_events, Hloop.
    unfold warn_if_nan. rewrite Hnan. split; reflexivity.
Qed.

(** *** The loop over the sites keeps the skeleton of the model trace *)

Lemma latent_site_step_frame guide_trace name (m : tensor R)
    (st st' : particle_state R) :
  latent_site_step guide_trace name m st = Ok st' ->
  same_skeleton (nodes (cur_model_trace st)) (nodes (cur_model_trace st')).
Proof.
  unfold latent_site_step. intros Hs.
  apply bind_Ok in Hs. destruct Hs as (gs & _ & Hs).
  apply bind_Ok in Hs. destruct Hs as ([[g sf] ent] & _ & Hs).
  apply bind_Ok in Hs. destruct Hs as (e1 & _ & Hs).
  apply bind_Ok in Hs. destruct Hs as (e & _ & Hs).
  apply bind_Ok in Hs. destruct Hs as (s1 & _ & Hs).
  apply bind_Ok in Hs. destruct Hs as (s2 & _ & Hs).
  destruct (negb (is_identically_zero sf)).
  - apply bind_Ok in Hs. destruct Hs as ([r mt'] & Hc & Hs).
    inv_res. simpl.
    apply compute_site_log_r_frame in Hc. apply Hc.
  - inv_res. simpl. apply same_skeleton_refl.
Qed.

Lemma site_step_frame guide_trace (st st' : particle_state R) (k : nat) :
  site_step guide_trace st k = Ok st' ->
  same_skeleton (nodes (cur_model_trace st)) (nodes (cur_model_trace st')).
Proof.
  unfold site_step. intros Hs.
  apply bind_Ok in Hs. destruct Hs as ([name model_site] & _ & Hs).
  destruct (is_sample model_site).
  - apply bind_Ok in Hs. destruct Hs as (m & _ & Hs).
    destruct (is_observed model_site).
    + inv_res. simpl. apply same_skeleton_refl.
    + eapply latent_site_step_frame; eassumption.
  - inv_res. apply same_skeleton_refl.
Qed.

Lemma sites_loop_frame guide_trace (ks : list nat) :
  forall st st' : particle_state R,
    sites_loop guide_trace ks st = Ok st' ->
    same_skeleton (nodes (cur_model_trace st)) (nodes (cur_model_trace st')).
Proof.
  induction ks as [|k ks IH]; simpl; intros st st' Hs.
  - inv_res. apply same_skeleton_refl.
  - apply bind_Ok in Hs. destruct Hs as (st1 & H1 & Hs).
    eapply same_skeleton_trans;
      [eapply site_step_frame; eassumption | eapply IH; eassumption].
Qed.

Lemma same_skeleton_param_values (l l' : list (string * site R)) oa ob :
  same_skeleton l l' ->
  param_values (Trace l' ob) = param_values (Trace l oa).
Proof.
  unfold param_values. simpl.
  induction 1 as [|[n s] [n' s'] l l' (_ & Ht & _ & Hv & _) _ IH];
    [reflexivity|].
  rewrite !filter_cons. simpl in *. unfold is_param in *. rewrite Ht.
  destruct (decide (String.eqb (stype s) "param" = true)); simpl;
    rewrite IH; congruence.
Qed.

Lemma has_param_site_values (tr : trace R) :
  has_param_site tr = false <-> param_values tr = [].
Proof.
  unfold has_param_site, param_values.
  induction (nodes tr) as [|[n s] l IH]; simpl; [tauto|].
  rewrite filter_cons. simpl.
  destruct (is_param s) eqn:E; simpl.
  - destruct (decide (true = true)); [|contradiction].
    simpl. split; discriminate.
  - destruct (decide (false = true)); [discriminate|]. exact IH.
Qed.

Lemma list_to_set_empty_nil (l : list nat) :
  (list_to_set l : gset nat) = ∅ <-> l = [].
Proof.
  split; [|intros ->; reflexivity].
  destruct l as [|x l]; [reflexivity|].
  intros He. exfalso.
  assert (Hx : x ∈ (list_to_set (x :: l) : gset nat))
    by (apply elem_of_list_to_set; left).
  rewrite He in Hx. exact (not_elem_of_empty x Hx).
Qed.

Lemma trainable_params_nonempty (model_trace guide_trace : trace R) :
  negb (bool_decide (trainable_params_of model_trace guide_trace = ∅))
  = has_param_site model_trace || has_param_site guide_trace.
Proof.
  unfold trainable_params_of.
  destruct (has_param_site model_trace) eqn:Em;
    destruct (has_param_site guide_trace) eqn:Eg; simpl;
    try (rewrite bool_decide_eq_false_2; [reflexivity|];
         rewrite list_to_set_empty_nil; intros Hnil;
         apply app_eq_nil in Hnil; destruct Hnil as [Hm Hg];
         first [ apply has_param_site_values in Hm; congruence
               | apply has_param_site_values in Hg; congruence ]).
  apply has_param_site_values in Em, Eg. rewrite Em, Eg. simpl.
  rewrite bool_decide_eq_true_2; reflexivity.
Qed.

Lemma particle_step_events (self : Trace_ELBO) (elbo elbo' : pyval R)
    (model_trace guide_trace : trace R) :
  outcome (particle_step self elbo model_trace guide_trace) = Ok elbo' ->
  events (particle_step self elbo model_trace guide_trace)
  = backward_events self model_trace guide_trace.
Proof.
  unfold particle_step, backward_events.
  fold (sites_result model_trace guide_trace).
  destruct (sites_result model_trace guide_trace) as [st|e] eqn:Est;
    [|discriminate].
  unfold mbind, eff_bind, lift, emit, mret, eff_ret. simpl.
  destruct (v_div_nat (elbo_particle st) (num_particles self)) as [q|e];
    [|discriminate].
  simpl.
  destruct (v_iadd elbo q) as [elbo1|e]; [|discriminate].
  simpl. intros _.
  apply sites_loop_frame in Est. simpl in Est.
  rewrite trainable_params_nonempty.
  assert (Hp : param_values (cur_model_trace st) = param_values model_trace).
  { destruct (cur_model_trace st) as [l' ob], model_trace as [l oa].
    eapply same_skeleton_param_values. exact Est. }
  assert (Hh : has_param_site (cur_model_trace st)
               = has_param_site model_trace).
  { destruct (has_param_site model_trace) eqn:E1;
      destruct (has_param_site (cur_model_trace st)) eqn:E2;
      try reflexivity.
    - apply has_param_site_values in E2. rewrite Hp in E2.
      apply has_param_site_values in E2. congruence.
    - apply has_param_site_values in E1. rewrite <- Hp in E1.
      apply has_param_site_values in E1. congruence. }
  rewrite Hh. unfold trainable_params_of. rewrite Hp.
  destruct (surrogate_elbo_particle st) as [x|t]; simpl.
  - rewrite andb_false_r. reflexivity.
  - destruct ((has_param_site model_trace || has_param_site guide_trace)
              && requires_grad t); reflexivity.
Qed.

Lemma particles_loop_events (self : Trace_ELBO)
    (gen : list (result (trace R * trace R))) :
  forall elbo v : pyval R,
    outcome (particles_loop self gen elbo) = Ok v ->
    exists pairs,
      gen = map Ok pairs
      /\ events (particles_loop self gen elbo)
         = flat_map (fun p => backward_events self p.1 p.2) pairs.
Proof.
  induction gen as [|next gen IH]; intros elbo v Hv;
    cbn [particles_loop] in *.
  - exists []. split; reflexivity.
  - rewrite outcome_bind in Hv. rewrite events_bind.
    destruct next as [[model_trace guide_trace]|e];
      unfold lift in *; cbn [outcome events fst snd app] in *;
      [|discriminate].
    rewrite outcome_bind in Hv. rewrite events_bind.
    destruct (outcome (particle_step self elbo model_trace guide_trace))
      as [elbo1|e] eqn:Estep; [|discriminate].
    destruct (IH _ _ Hv) as (pairs & -> & Hev).
    exists ((model_trace, guide_trace) :: pairs).
    split; [reflexivity|]. simpl.
    rewrite Hev, (particle_step_events _ _ _ _ _ Estep). reflexivity.
Qed.


(** *** Scalars as Python values *)

Lemma t_binop_scalars f (t u : tensor R) (a b : R) :
  shape t = [] -> data t = [a] -> shape u = [] -> data u = [b] ->
  t_binop f t u = Ok (Tensor [] [f a b] (requires_grad t || requires_grad u)).
Proof.
  intros Hst Hdt Hsu Hdu. unfold t_binop, expand_to.
  rewrite Hst, Hsu, Hdt, Hdu. reflexivity.
Qed.

Lemma v_binop_value f (a b c : pyval R) (x y : R) :
  pv_value a x -> pv_value b y -> v_binop f a b = Ok c ->
  pv_value c (f x y).
Proof.
  destruct a as [x'|t], b as [y'|u]; simpl; intros Ha Hb Hc.
  - inv_res. reflexivity.
  - destruct Hb as [Hs Hd]. inv_res. simpl. rewrite Hs, Hd. split; reflexivity.
  - destruct Ha as [Hs Hd]. inv_res. simpl. rewrite Hs, Hd. split; reflexivity.
  - destruct Ha as [Hs Hd], Hb as [Hs' Hd'].
    rewrite (t_binop_scalars f t u x y Hs Hd Hs' Hd') in Hc.
    simpl in Hc. inv_res. split; reflexivity.
Qed.

Lemma v_iadd_value (a b c : pyval R) (x y : R) :
  pv_value a x -> pv_value b y -> v_iadd a b = Ok c ->
  pv_value c (s_add x y).
Proof.
  destruct a as [x'|t]; [apply v_binop_value|].
  destruct b as [y'|u]; [apply v_binop_value|].
  simpl. intros [Hs Hd] [Hs' Hd'] Hc.
  unfold v_iadd, v_binop_, t_binop_ in Hc.
  destruct (expandable (shape u) (shape t)); simpl in Hc; [|discriminate].
  inv_res. simpl. split; [exact Hs|].
  unfold expand_to. rewrite Hs, Hs', Hd, Hd'. reflexivity.
Qed.

Lemma v_neg_value (a : pyval R) (x : R) :
  pv_value a x -> pv_value (v_neg a) (s_neg x).
Proof.
  destruct a as [y|t]; simpl.
  - intros ->. reflexivity.
  - intros [Hs Hd]. rewrite Hd. split; [exact Hs | reflexivity].
Qed.

Lemma v_div_nat_value (a q : pyval R) (x : R) (n : nat) :
  pv_value a x -> v_div_nat a n = Ok q ->
  pv_value q (s_div x (s_of_nat n)).
Proof.
  destruct a as [y|t]; simpl.
  - intros -> Hq. destruct (n =? 0); inv_res. reflexivity.
  - intros [Hs Hd] Hq. inv_res. simpl. rewrite Hd. split; [exact Hs | reflexivity].
Qed.

Lemma pv_value_item (a : pyval R) (x : R) : pv_value a x -> v_item a = Ok x.
Proof.
  destruct a as [y|t]; simpl.
  - intros ->. reflexivity.
  - intros [_ Hd]. unfold item. rewrite Hd. reflexivity.
Qed.

Lemma scalar_tensor_value (t : tensor R) :
  is_scalar_tensor t -> shape t = [] /\ data t = [scalar_of t].
Proof.
  intros [Hs Hl]. split; [exact Hs|]. unfold scalar_of.
  destruct (data t) as [|x [|y d]]; simpl in Hl; try discriminate.
  reflexivity.
Qed.

(** *** The two ELBO computations on a matched pair *)

Lemma total_log_pdf_from_value (l : list (string * site R)) :
  forall (log_p total : tensor R) (a : R),
    (forall name s t, In (name, s) l -> is_sample s = true ->
                      log_pdf s = Some t -> is_scalar_tensor t) ->
    shape log_p = [] -> data log_p = [a] ->
    total_log_pdf_from log_p l = Ok total ->
    shape total = [] /\ data total = [fold_left s_add (sample_values l) a].
Proof.
  induction l as [|[name s] l IH]; simpl; intros log_p total a Hsc Hs Hd Ht.
  - inv_res. split; assumption.
  - unfold sample_values. simpl.
    destruct (is_sample s) eqn:Es; simpl.
    + apply bind_Ok in Ht. destruct Ht as (lp & Hlp & Ht).
      destruct (log_pdf s) as [lp'|] eqn:El; simpl in Hlp; [|discriminate].
      injection Hlp as ->.
      apply bind_Ok in Ht. destruct Ht as (log_p' & Hadd & Ht).
      destruct (scalar_tensor_value lp (Hsc name s lp (or_introl eq_refl) Es El))
        as [Hs' Hd'].
      rewrite (t_binop_scalars _ _ _ _ _ Hs Hd Hs' Hd') in Hadd.
      injection Hadd as <-.
      replace (site_value s) with (scalar_of lp)
        by (unfold site_value; rewrite El; reflexivity).
      eapply IH; [| | |exact Ht]; try reflexivity.
      intros n' s' t' Hin. apply (Hsc n' s' t'). right. exact Hin.
    + eapply IH; [| exact Hs | exact Hd | exact Ht].
      intros n' s' t' Hin. apply (Hsc n' s' t'). right. exact Hin.
Qed.

Lemma trace_log_pdf_value (tr : trace R) (total : tensor R) :
  ExactScalar R ->
  (forall name s t, In (name, s) (nodes tr) -> is_sample s = true ->
                    log_pdf s = Some t -> is_scalar_tensor t) ->
  trace_log_pdf tr = Ok total ->
  shape total = [] /\
  data total = [fold_left s_add (sample_values (nodes tr)) s_zero].
Proof.
  intros _ Hsc Ht. unfold trace_log_pdf in Ht.
  eapply total_log_pdf_from_value; [exact Hsc| | |exact Ht]; reflexivity.
Qed.

Lemma fold_left_add_perm `{!ExactScalar R} (l l' : list R) :
  Permutation l l' ->
  forall a, fold_left s_add l a = fold_left s_add l' a.
Proof.
  induction 1 as [|x l l' _ IH|x y l|l1 l2 l3 _ IH1 _ IH2]; intros a; simpl.
  - reflexivity.
  - apply IH.
  - f_equal.
    rewrite <- !s_add_assoc. f_equal. apply s_add_comm.
  - rewrite IH1. apply IH2.
Qed.

Lemma fold_elbo_step `{!ExactScalar R} (guide_trace : trace R)
    (l : list (string * site R)) :
  forall a b,
    fold_left (elbo_step guide_trace) l (s_sub a b)
    = s_sub (fold_left s_add (sample_values l) a)
            (fold_left s_add (latent_densities guide_trace l) b).
Proof.
  unfold sample_values, latent_densities, names_where.
  induction l as [|[name s] l IH]; intros a b; simpl; [reflexivity|].
  unfold elbo_step at 2, is_latent. simpl.
  destruct (is_sample s); simpl; [|apply IH].
  destruct (is_observed s); simpl.
  - rewrite <- s_add_sub_swap. apply IH.
  - rewrite <- s_add_sub_swap, <- s_sub_add. apply IH.
Qed.

Lemma site_step_elbo (guide_trace : trace R)
    (model_nodes : list (string * site R)) (st st' : particle_state R)
    (k : nat) (name : string) (s : site R) (a : R) :
  same_skeleton model_nodes (nodes (cur_model_trace st)) ->
  model_nodes !! k = Some (name, s) ->
  (forall t, is_sample s = true -> log_pdf s = Some t -> is_scalar_tensor t) ->
  pv_value (elbo_particle st) a ->
  site_step guide_trace st k = Ok st' ->
  pv_value (elbo_particle st') (elbo_step guide_trace a (name, s)).
Proof.
  intros Hsk Hk Hsc Ha Hstep.
  destruct (Forall2_lookup_l _ _ _ _ _ Hsk Hk)
    as ([name' s'] & Hk' & Hn & Ht & Ho & _ & Hl & _).
  simpl in Hn, Ht, Ho, Hl. subst name'.
  unfold site_step in Hstep. rewrite Hk' in Hstep. simpl in Hstep.
  unfold elbo_step, is_sample in *. simpl. rewrite Ht, Ho, Hl in Hstep.
  destruct (String.eqb (stype s) "sample") eqn:Es; [|inv_res; exact Ha].
  apply bind_Ok in Hstep. destruct Hstep as (m & Hm & Hstep).
  destruct (log_pdf s) as [m'|] eqn:El; simpl in Hm; [|discriminate].
  injection Hm as ->.
  destruct (scalar_tensor_value m (Hsc m eq_refl eq_refl)) as [Hsm Hdm].
  assert (Hv : site_value s = scalar_of m)
    by (unfold site_value; rewrite El; reflexivity).
  rewrite Hv.
  destruct (is_observed s).
  - apply bind_Ok in Hstep. destruct Hstep as (x & Hx & Hstep).
    apply bind_Ok in Hstep. destruct Hstep as (e & He & Hstep).
    apply bind_Ok in Hstep. destruct Hstep as (su & _ & Hstep).
    injection Hstep as <-. simpl.
    unfold item in Hx. rewrite Hdm in Hx. injection Hx as <-.
    eapply v_binop_value; [exact Ha | | exact He]. reflexivity.
  - unfold latent_site_step in Hstep.
    apply bind_Ok in Hstep. destruct Hstep as (gs & Hgs & Hstep).
    apply bind_Ok in Hstep. destruct Hstep as ([[g sf] ent] & Hsp & Hstep).
    apply bind_Ok in Hstep. destruct Hstep as (e1 & He1 & Hstep).
    apply bind_Ok in Hstep. destruct Hstep as (e & He & Hstep).
    apply bind_Ok in Hstep. destruct Hstep as (s1 & _ & Hstep).
    apply bind_Ok in Hstep. destruct Hstep as (s2 & _ & Hstep).
    assert (Hg : guide_density_at guide_trace name
                 = fold_left s_add (data g) s_zero).
    { unfold guide_density_at.
      destruct (assoc name (nodes guide_trace)); simpl in Hgs; [|discriminate].
      injection Hgs as ->.
      destruct (score_parts gs) as [[[g' sf'] ent']|]; simpl in Hsp;
        [|discriminate].
      injection Hsp as -> _ _. reflexivity. }
    rewrite Hg.
    assert (Hst' : elbo_particle st' = e).
    { destruct (negb (is_identically_zero sf)); inv_res; reflexivity. }
    rewrite Hst'.
    eapply v_binop_value; [| |exact He].
    + eapply v_binop_value; [exact Ha| |exact He1]. split; assumption.
    + split; reflexivity.
Qed.

Lemma sites_loop_elbo (guide_trace : trace R)
    (model_nodes : list (string * site R)) :
  (forall name s t, In (name, s) model_nodes -> is_sample s = true ->
                    log_pdf s = Some t -> is_scalar_tensor t) ->
  forall (n k : nat) (st st' : particle_state R) (a : R),
    k + n = length model_nodes ->
    same_skeleton model_nodes (nodes (cur_model_trace st)) ->
    pv_value (elbo_particle st) a ->
    sites_loop guide_trace (seq k n) st = Ok st' ->
    pv_value (elbo_particle st')
      (fold_left (elbo_step guide_trace) (drop k model_nodes) a).
Proof.
  intros Hsc. induction n as [|n IH]; intros k st st' a Hlen Hsk Ha Hloop.
  - simpl in Hloop. injection Hloop as <-.
    rewrite drop_ge by lia. exact Ha.
  - simpl in Hloop.
    apply bind_Ok in Hloop. destruct Hloop as (st1 & Hstep & Hloop).
    destruct (lookup_lt_is_Some_2 model_nodes k) as [[name s] Hk]; [lia|].
    rewrite (drop_S _ _ _ Hk). simpl.
    eapply IH; [lia | | | exact Hloop].
    + eapply same_skeleton_trans;
        [exact Hsk | eapply site_step_frame; exact Hstep].
    + eapply site_step_elbo; [exact Hsk | exact Hk | | exact Ha | exact Hstep].
      intros t Es El. apply (Hsc name s t); [|exact Es|exact El].
      apply list_elem_of_In. eapply list_elem_of_lookup_2. exact Hk.
Qed.

Lemma assoc_In_NoDup {V} (l : list (string * V)) (k : string) (v : V) :
  NoDup (map fst l) -> In (k, v) l -> assoc k l = Some v.
Proof.
  induction l as [|[k' v'] l IH]; simpl; intros Hnd Hin; [contradiction|].
  apply NoDup_cons in Hnd. destruct Hnd as [Hnotin Hnd].
  destruct Hin as [Heq|Hin].
  - injection Heq as -> ->. rewrite String.eqb_refl. reflexivity.
  - destruct (String.eqb_spec k k') as [->|_]; [|apply IH; assumption].
    exfalso. apply Hnotin. apply list_elem_of_In.
    apply in_map_iff. exists (k', v). split; [reflexivity | exact Hin].
Qed.

Lemma guide_sample_values (model_trace guide_trace : trace R) :
  matched_pair model_trace guide_trace ->
  sample_values (nodes guide_trace)
  = map (guide_density_at guide_trace)
      (names_where is_sample (nodes guide_trace)).
Proof.
  intros Hmp. unfold sample_values, names_where. rewrite map_map.
  apply map_ext_in. intros [name s] Hin. simpl.
  apply filter_In in Hin. destruct Hin as [Hin Hs]. simpl in Hs.
  destruct (mp_guide_parts _ _ Hmp name s Hin Hs) as (g & sf & ent & Hsp & Hl).
  unfold site_value, guide_density_at.
  rewrite (assoc_In_NoDup _ _ _ (mp_guide_names _ _ Hmp) Hin), Hsp, Hl.
  reflexivity.
Qed.

Lemma guide_log_pdfs_scalar (model_trace guide_trace : trace R) :
  matched_pair model_trace guide_trace ->
  forall name s t, In (name, s) (nodes guide_trace) -> is_sample s = true ->
                   log_pdf s = Some t -> is_scalar_tensor t.
Proof.
  intros Hmp name s t Hin Hs Hl.
  destruct (mp_guide_parts _ _ Hmp name s Hin Hs) as (g & sf & ent & _ & Hl').
  rewrite Hl' in Hl. injection Hl as <-. split; reflexivity.
Qed.

Lemma particle_step_outcome (self : Trace_ELBO) (elbo elbo' : pyval R)
    (model_trace guide_trace : trace R) :
  outcome (particle_step self elbo model_trace guide_trace) = Ok elbo' ->
  exists st q,
    sites_result model_trace guide_trace = Ok st
    /\ v_div_nat (elbo_particle st) (num_particles self) = Ok q
    /\ v_iadd elbo q = Ok elbo'.
Proof.
  unfold particle_step.
  fold (sites_result model_trace guide_trace).
  destruct (sites_result model_trace guide_trace) as [st|e] eqn:Est;
    [|discriminate].
  unfold mbind, eff_bind, lift, emit, mret, eff_ret. simpl.
  destruct (v_div_nat (elbo_particle st) (num_particles self)) as [q|e] eqn:Eq;
    [|discriminate].
  simpl.
  destruct (v_iadd elbo q) as [elbo1|e] eqn:Ea; [|discriminate].
  simpl. intros Hout. exists st, q.
  split; [reflexivity|]. split; [exact Eq|]. rewrite Ea.
  destruct (negb _ && _); simpl in Hout; [|exact Hout].
  destruct (v_div_nat (v_neg (surrogate_elbo_particle st))
              (num_particles self)); simpl in Hout;
    [exact Hout | discriminate].
Qed.

(** Where the two computations do agree: in exact arithmetic, with
    [num_particles = 1], on a trace pair whose guide sample sites are the
    latent sample sites of the model, whose guide [log_pdf] is the sum of
    the guide log-density and whose model log-densities are scalars, the
    loss that [loss_and_grads] returns, read as a plain number, is the loss
    that [loss] returns. *)
Theorem loss_and_grads_agrees_with_loss `{!ExactScalar R}
    (eng : Engine R) (self : Trace_ELBO)
    (model_trace guide_trace : trace R) (x : R) (v : pyval R) :
  num_particles self = 1 ->
  get_traces_body eng self 0 = Ok (model_trace, guide_trace) ->
  matched_pair model_trace guide_trace ->
  outcome (loss eng self) = Ok x ->
  outcome (loss_and_grads eng self) = Ok v ->
  v_item v = Ok x.
Proof.
  intros Hn Hpair Hmp Hloss Hlag.
  (* loss *)
  rewrite loss_outcome in Hloss. unfold _get_traces in Hloss.
  rewrite Hn in Hloss. cbn [seq map loss_loop] in Hloss.
  rewrite Hpair, Hn in Hloss. simpl in Hloss.
  apply fmap_Ok in Hloss. destruct Hloss as (elbo & Hloop & ->).
  apply bind_Ok in Hloop. destruct Hloop as (d & Hd & Hloop).
  injection Hloop as <-.
  unfold elbo_particle_of in Hd.
  apply bind_Ok in Hd. destruct Hd as (m & Hm & Hd).
  apply bind_Ok in Hd. destruct Hd as (g & Hg & Hd).
  apply bind_Ok in Hd. destruct Hd as (diff & Hdiff & Hitem).
  destruct (trace_log_pdf_value _ _ _ (mp_model_scalar _ _ Hmp) Hm)
    as [Hsm Hdm].
  destruct (trace_log_pdf_value _ _ _ (guide_log_pdfs_scalar _ _ Hmp) Hg)
    as [Hsg Hdg].
  rewrite (t_binop_scalars _ _ _ _ _ Hsm Hdm Hsg Hdg) in Hdiff.
  injection Hdiff as <-. unfold item in Hitem. simpl in Hitem.
  injection Hitem as <-.
  (* loss_and_grads *)
  rewrite loss_and_grads_outcome in Hlag. unfold _get_traces in Hlag.
  rewrite Hn in Hlag. cbn [seq map particles_loop] in Hlag.
  rewrite Hpair in Hlag.
  apply fmap_Ok in Hlag. destruct Hlag as (elbo' & Hloop & ->).
  rewrite outcome_bind in Hloop. unfold lift in Hloop.
  cbn [outcome fst snd] in Hloop.
  rewrite outcome_bind in Hloop.
  destruct (outcome (particle_step self (PNum s_zero) model_trace guide_trace))
    as [elbo1|e] eqn:Estep; [|discriminate].
  cbn in Hloop. injection Hloop as ->.
  destruct (particle_step_outcome _ _ _ _ _ Estep)
    as (st & q & Hst & Hq & Hadd).
  assert (Hval : pv_value (elbo_particle st)
                   (fold_left (elbo_step guide_trace) (nodes model_trace)
                      s_zero)).
  { unfold sites_result in Hst.
    apply (sites_loop_elbo guide_trace (nodes model_trace)
             (mp_model_scalar _ _ Hmp) _ 0 _ st s_zero) in Hst;
      [exact Hst | lia | apply same_skeleton_refl | reflexivity]. }
  apply pv_value_item. apply v_neg_value.
  pose proof (v_div_nat_value _ _ _ _ Hval Hq) as Hqv.
  pose proof (v_iadd_value (PNum s_zero) q elbo' s_zero _ eq_refl Hqv Hadd)
    as He.
  rewrite Hn, s_div_one, s_add_zero_l in He.
  rewrite s_div_one, s_add_zero_l.
  replace (s_sub (fold_left s_add (sample_values (nodes model_trace)) s_zero)
                 (fold_left s_add (sample_values (nodes guide_trace)) s_zero))
    with (fold_left (elbo_step guide_trace) (nodes model_trace) s_zero);
    [exact He|].
  rewrite <- (s_sub_zero_r s_zero) at 1.
  rewrite fold_elbo_step. f_equal.
  rewrite (guide_sample_values _ _ Hmp). unfold latent_densities.
  apply fold_left_add_perm. apply Permutation_map. symmetry.
  apply (mp_same_latents _ _ Hmp).
Qed.

(** *** Shapes and element counts *)

Lemma chunks_lengths (k n : nat) :
  forall l : list R,
    length l = n * k ->
    length (chunks k n l) = n
    /\ Forall (fun c => length c = k) (chunks k n l).
Proof.
  induction n as [|n IH]; simpl; intros l Hl.
  - split; [reflexivity | constructor].
  - destruct (IH (drop k l)) as [Hn Hall].
    { rewrite length_drop. lia. }
    split; [rewrite Hn; reflexivity|].
    constructor; [|exact Hall].
    rewrite length_take. lia.
Qed.

Lemma length_concat_uniform (k : nat) (ls : list (list R)) :
  Forall (fun c => length c = k) ls ->
  length (concat ls) = length ls * k.
Proof.
  induction 1 as [|c ls Hc _ IH]; simpl; [reflexivity|].
  rewrite length_app, Hc, IH. reflexivity.
Qed.

Lemma bdim_same_r (a b : nat) :
  bdim a b = Some b -> a = b \/ (a <> b /\ a = 1).
Proof.
  unfold bdim.
  destruct (Nat.eqb_spec a b) as [->|Hab]; [left; reflexivity|].
  destruct (Nat.eqb_spec a 1) as [->|Ha]; [right; split; [exact Hab|reflexivity]|].
  destruct (Nat.eqb_spec b 1); intros E; [|discriminate].
  injection E as ->. contradiction.
Qed.

Lemma bshape_length (s1 s2 r : list nat) :
  bshape s1 s2 = Some r -> length s1 = length r /\ length s2 = length r.
Proof.
  revert s2 r. induction s1 as [|a s1 IH]; intros [|b s2] r; simpl;
    try discriminate.
  - intros E. injection E as <-. split; reflexivity.
  - destruct (bdim a b) as [d|]; [|discriminate].
    destruct (bshape s1 s2) as [r'|] eqn:E'; [|discriminate].
    intros E. injection E as <-. destruct (IH _ _ E') as [-> ->].
    split; reflexivity.
Qed.

Lemma length_expand_data (s : list nat) :
  forall (t : list nat) (d : list R),
    bshape s t = Some t -> length d = numel s ->
    length (expand_data s t d) = numel t.
Proof.
  induction s as [|a s IH]; intros [|b t] d; simpl; try discriminate.
  - intros _ Hd. exact Hd.
  - destruct (bdim a b) as [b'|] eqn:Eb; [|discriminate].
    destruct (bshape s t) as [r|] eqn:Er; [|discriminate].
    intros E Hd. injection E as -> ->.
    destruct (bdim_same_r _ _ Eb) as [->|[Hab ->]].
    + rewrite Nat.eqb_refl.
      destruct (chunks_lengths (numel s) b d) as [Hn Hall];
        [rewrite Hd; reflexivity|].
      rewrite (length_concat_uniform (numel t)).
      * rewrite length_map, Hn. reflexivity.
      * apply Forall_map. eapply Forall_impl; [exact Hall|].
        intros c Hc. simpl. apply IH; [exact Er | exact Hc].
    + destruct (Nat.eqb_spec 1 b) as [E|_]; [congruence|].
      rewrite (length_concat_uniform (numel t)).
      * rewrite repeat_length. reflexivity.
      * apply Forall_forall. intros c Hc.
        apply list_elem_of_In, repeat_spec in Hc. subst c.
        apply IH; [exact Er | lia].
Qed.

Lemma numel_pad_shape (n : nat) (s : list nat) :
  numel (pad_shape n s) = numel s.
Proof.
  unfold pad_shape. induction (n - length s) as [|k IH]; simpl; [reflexivity|].
  rewrite IH. lia.
Qed.

Lemma expandable_bshape (s t : list nat) :
  expandable s t = true -> bshape (pad_shape (length t) s) t = Some t.
Proof.
  unfold expandable, broadcast_shapes. intros E.
  apply bool_decide_eq_true_1 in E.
  destruct (bshape_length _ _ _ E) as [_ Hlen].
  unfold pad_shape in Hlen at 1. rewrite length_app, repeat_length in Hlen.
  assert (Hmax : Nat.max (length s) (length t) = length t) by lia.
  rewrite Hmax, pad_shape_self in E. exact E.
Qed.

Lemma length_expand_to (u : tensor R) (t : list nat) :
  expandable (shape u) t = true -> wf_tensor u ->
  length (expand_to u t) = numel t.
Proof.
  intros E Hu. unfold expand_to.
  apply length_expand_data; [apply expandable_bshape; exact E|].
  rewrite numel_pad_shape. exact Hu.
Qed.

Lemma expandable_refl (s : list nat) : expandable s s = true.
Proof.
  unfold expandable. apply bool_decide_eq_true_2, broadcast_shapes_refl.
Qed.

Lemma t_binop_same_shape_wf f (x y z : tensor R) :
  shape y = shape x -> wf_tensor x -> wf_tensor y ->
  t_binop f x y = Ok z ->
  shape z = shape x /\ wf_tensor z.
Proof.
  intros Hs Hx Hy Hz. unfold t_binop in Hz.
  rewrite Hs, broadcast_shapes_refl in Hz. injection Hz as <-.
  split; [reflexivity|]. unfold wf_tensor. simpl.
  rewrite length_zip_with, !length_expand_to;
    [lia | rewrite Hs; apply expandable_refl | exact Hy
     | apply expandable_refl | exact Hx].
Qed.

Lemma t_binop__wf f (x y z : tensor R) :
  wf_tensor x -> wf_tensor y -> t_binop_ f x y = Ok z ->
  shape z = shape x /\ wf_tensor z.
Proof.
  intros Hx Hy Hz. unfold t_binop_ in Hz.
  destruct (expandable (shape y) (shape x)) eqn:E; [|discriminate].
  injection Hz as <-. split; [reflexivity|]. unfold wf_tensor. simpl.
  rewrite length_zip_with, (length_expand_to _ _ E Hy). unfold wf_tensor in Hx.
  lia.
Qed.

Lemma numel_app (s1 s2 : list nat) : numel (s1 ++ s2) = numel s1 * numel s2.
Proof.
  induction s1 as [|a s1 IH]; simpl; [lia|]. rewrite IH. lia.
Qed.

Lemma fold_zip_with_length f (n : nat) (bs : list (list R)) :
  Forall (fun c => length c = n) bs ->
  forall acc : list R,
    length acc = n -> length (fold_left (zip_with f) bs acc) = n.
Proof.
  induction 1 as [|c bs Hc _ IH]; simpl; intros acc Hacc; [exact Hacc|].
  apply IH. rewrite length_zip_with. lia.
Qed.

Lemma sum_leftmost_wf (t : tensor R) (k : nat) :
  wf_tensor t -> wf_tensor (sum_leftmost t k).
Proof.
  unfold wf_tensor, sum_leftmost. simpl. intros Ht.
  apply fold_zip_with_length; [|apply repeat_length].
  apply chunks_lengths.
  rewrite Ht, <- (take_drop k (shape t)) at 1. apply numel_app.
Qed.

Lemma mv_add_tensor_wf (mv mv' : MultiViewTensor R) (t : tensor R) :
  mv_wf mv -> wf_tensor t -> mv_add_tensor mv t = Ok mv' -> mv_wf mv'.
Proof.
  unfold mv_wf. intros Hmv Ht. revert mv'.
  induction Hmv as [|[s u] mv [Hs Hu] Hmv IH]; simpl; intros mv' Hadd.
  - inv_res. constructor; [split; [reflexivity | exact Ht] | constructor].
  - simpl in Hs, Hu. destruct (decide (s = shape t)) as [E|_].
    + apply bind_Ok in Hadd. destruct Hadd as (v & Hv & Hadd).
      injection Hadd as <-.
      destruct (t_binop_same_shape_wf s_add u t v) as [Hsv Hwv];
        [congruence | exact Hu | exact Ht | exact Hv |].
      constructor; [|exact Hmv]. simpl. split; [congruence | exact Hwv].
    + apply bind_Ok in Hadd. destruct Hadd as (mv'' & Hrec & Hadd).
      injection Hadd as <-.
      constructor; [split; assumption | apply IH; exact Hrec].
Qed.

Lemma assoc_In {V} (l : list (string * V)) (k : string) (v : V) :
  assoc k l = Some v -> In (k, v) l.
Proof.
  induction l as [|[k' v'] l IH]; simpl; [discriminate|].
  destruct (String.eqb_spec k k') as [->|_].
  - intros E. injection E as ->. left. reflexivity.
  - intros E. right. apply IH. exact E.
Qed.

Lemma log_r_term_of_wf guide_trace name (model_site model_site' : site R)
    (t : tensor R) :
  (forall b, batch_log_pdf model_site = Some b -> wf_tensor b) ->
  guide_log_pdfs_wf (nodes guide_trace) ->
  log_r_term_of guide_trace name model_site = Ok (t, model_site') ->
  wf_tensor t.
Proof.
  intros Hb Hg Ht. unfold log_r_term_of in Ht.
  apply bind_Ok in Ht. destruct Ht as (b & Eb & Ht).
  destruct (batch_log_pdf model_site) as [b'|]; simpl in Eb; [|discriminate].
  injection Eb as ->.
  destruct (negb (is_observed model_site)).
  - apply bind_Ok in Ht. destruct Ht as (gs & Egs & Ht).
    apply bind_Ok in Ht. destruct Ht as ([[g sf] ent] & Esp & Ht).
    apply bind_Ok in Ht. destruct Ht as (t' & Hsub & Ht).
    injection Ht as <- _.
    destruct (assoc name (nodes guide_trace)) as [gs'|] eqn:Ea;
      simpl in Egs; [|discriminate].
    injection Egs as ->.
    destruct (score_parts gs) as [sp|] eqn:Es; simpl in Esp; [|discriminate].
    injection Esp as ->.
    eapply t_binop__wf; [| |exact Hsub].
    + apply Hb. reflexivity.
    + eapply Hg; [apply assoc_In; exact Ea | exact Es].
  - injection Ht as <- _. apply Hb. reflexivity.
Qed.

Lemma log_r_loop_wf stacks guide_trace target_site l :
  batch_log_pdfs_wf l ->
  guide_log_pdfs_wf (nodes guide_trace) ->
  forall log_r log_r' l',
    mv_wf log_r ->
    log_r_loop stacks guide_trace target_site l log_r = Ok (log_r', l') ->
    mv_wf log_r'.
Proof.
  intros Hb Hg.
  induction l as [|[name model_site] l IH]; simpl; intros log_r log_r' l' Hw Hl.
  - inv_res. exact Hw.
  - assert (Hb' : batch_log_pdfs_wf l).
    { intros n s t Hin. apply (Hb n s t). right. exact Hin. }
    destruct (is_sample model_site); inv_res.
    + eapply IH; [exact Hb'| |eassumption].
      eapply mv_add_tensor_wf; [exact Hw| |eassumption].
      apply sum_leftmost_wf. unfold wf_tensor, detach. simpl.
      eapply log_r_term_of_wf; [|exact Hg|eassumption].
      intros b Eb. apply (Hb name model_site b); [left; reflexivity|exact Eb].
    + eapply IH; [exact Hb'|exact Hw|eassumption].
Qed.

Lemma contract_term_wf (t u : tensor R) target_shape :
  wf_tensor t -> contract_term t target_shape = Ok u ->
  shape u = target_shape /\ wf_tensor u.
Proof.
  unfold contract_term. intros Ht Hu.
  destruct (expandable _ _) eqn:E; [|discriminate].
  injection Hu as <-. split; [reflexivity|].
  unfold wf_tensor. simpl.
  apply length_expand_to; [exact E|]. apply sum_leftmost_wf. exact Ht.
Qed.

Lemma mv_contract_from_wf (mv : MultiViewTensor R) target_shape :
  mv_wf mv ->
  forall acc r,
    shape acc = target_shape -> wf_tensor acc ->
    mv_contract_from acc mv target_shape = Ok r ->
    wf_tensor r.
Proof.
  induction 1 as [|[s t] mv [_ Ht] _ IH]; simpl; intros acc r Hs Hacc Hr.
  - inv_res. exact Hacc.
  - simpl in Ht.
    apply bind_Ok in Hr. destruct Hr as (u & Hu & Hr).
    apply bind_Ok in Hr. destruct Hr as (acc' & Hadd & Hr).
    destruct (contract_term_wf _ _ _ Ht Hu) as [Hsu Hwu].
    destruct (t_binop_same_shape_wf s_add acc u acc') as [Hs' Hw'];
      [congruence | exact Hacc | exact Hwu | exact Hadd |].
    apply (IH acc'); [congruence | exact Hw' | exact Hr].
Qed.

Lemma zeros_wf (s : list nat) : wf_tensor (zeros (R := R) s).
Proof. unfold wf_tensor, zeros. simpl. apply repeat_length. Qed.

(** C1, as the code has it: when [compute_site_log_r] returns, the tensor
    has exactly the target shape and is the contraction to that shape of
    the accumulated log-ratio terms of all the sample sites of the model
    trace, the target site among them: for each, [batch_log_pdf], minus the
    guide's log-density when the site is not observed, detached and
    restricted to the dimensions shared with the target before it is
    accumulated. *)
Theorem compute_site_log_r_all_sites
    (model_trace guide_trace : trace R) (target_site : string)
    (target_shape : list nat) (r : tensor R) (model_trace' : trace R) :
  compute_site_log_r model_trace guide_trace target_site target_shape
    = Ok (r, model_trace') ->
  all_sites_log_r model_trace guide_trace target_site target_shape = Ok r
  /\ shape r = target_shape
  /\ (batch_log_pdfs_wf (nodes model_trace) ->
      guide_log_pdfs_wf (nodes guide_trace) ->
      wf_tensor r).
Proof.
  unfold compute_site_log_r, all_sites_log_r, sum_of_log_ratio_terms.
  intros Hc. inv_res. simpl.
  match goal with
  | Hl : log_r_loop _ _ _ _ _ = Ok _ |- _ => rename Hl into Hloop
  end.
  destruct (log_r_loop_terms _ _ _ _ _ _ _ Hloop) as (ts & Hts & Hacc).
  rewrite Hts. simpl. rewrite Hacc. simpl.
  split; [assumption|]. split.
  - eapply mv_contract_from_shape; [|eassumption]. reflexivity.
  - intros Hb Hg.
    match goal with
    | Hc : mv_contract _ _ = Ok _ |- _ =>
        apply (mv_contract_from_wf _ target_shape) in Hc;
          [exact Hc | | reflexivity | apply zeros_wf]
    end.
    eapply log_r_loop_wf; [exact Hb | exact Hg | | exact Hloop].
    constructor.
Qed.

(** *** The store of [compute_site_log_r], in general *)

Lemma log_r_loop_stores stacks guide_trace target_site l :
  forall log_r log_r' l' k name (s : site R),
    log_r_loop stacks guide_trace target_site l log_r = Ok (log_r', l') ->
    l !! k = Some (name, s) ->
    is_sample s = true -> is_observed s = false ->
    exists b guide_site g sf ent t,
      batch_log_pdf s = Some b
      /\ assoc name (nodes guide_trace) = Some guide_site
      /\ score_parts guide_site = Some (g, sf, ent)
      /\ t_binop_ s_sub b g = Ok t
      /\ l' !! k = Some (name, set_batch_log_pdf s t).
Proof.
  induction l as [|[name0 s0] l IH]; intros log_r log_r' l' k name s Hl Hk Hs Ho;
    [destruct k; discriminate|].
  destruct k as [|k]; simpl in Hk.
  - injection Hk as -> ->. simpl in Hl. rewrite Hs in Hl.
    apply bind_Ok in Hl. destruct Hl as ([t s'] & Ht & Hl).
    inv_res.
    unfold log_r_term_of in Ht. rewrite Ho in Ht. simpl in Ht.
    destruct (batch_log_pdf s) as [b|] eqn:Eb; simpl in Ht; [|discriminate].
    destruct (assoc name (nodes guide_trace)) as [gs|] eqn:Eg; simpl in Ht;
      [|discriminate].
    destruct (score_parts gs) as [[[g sf] ent]|] eqn:Esp; simpl in Ht;
      [|discriminate].
    destruct (t_binop_ s_sub b g) as [t'|] eqn:Esub; simpl in Ht;
      [|discriminate].
    injection Ht as <- <-.
    exists b, gs, g, sf, ent, t'. repeat split; assumption || reflexivity.
  - simpl in Hl.
    assert (Hrest : exists log_r1 log_r2 l2 s0',
               log_r_loop stacks guide_trace target_site l log_r1
                 = Ok (log_r2, l2)
               /\ l' = (name0, s0') :: l2).
    { destruct (is_sample s0); inv_res; eauto 8. }
    destruct Hrest as (log_r1 & log_r2 & l2 & s0' & Hrec & ->).
    simpl. eapply IH; eassumption.
Qed.

(** A call of [compute_site_log_r] that returns has stored, in every
    latent sample site of the model trace, the difference of the site's
    [batch_log_pdf] and the guide's log-density as the new
    [batch_log_pdf]. *)
Theorem compute_site_log_r_stores_difference
    (model_trace guide_trace : trace R) target_site target_shape
    (r : tensor R) (model_trace' : trace R) (k : nat) (name : string)
    (s : site R) :
  compute_site_log_r model_trace guide_trace target_site target_shape
    = Ok (r, model_trace') ->
  nodes model_trace !! k = Some (name, s) ->
  is_sample s = true -> is_observed s = false ->
  exists b guide_site g sf ent t,
    batch_log_pdf s = Some b
    /\ assoc name (nodes guide_trace) = Some guide_site
    /\ score_parts guide_site = Some (g, sf, ent)
    /\ t_binop_ s_sub b g = Ok t
    /\ nodes model_trace' !! k = Some (name, set_batch_log_pdf s t).
Proof.
  unfold compute_site_log_r. intros Hc Hk Hs Ho.
  apply bind_Ok in Hc. destruct Hc as (stacks & _ & Hc).
  apply bind_Ok in Hc. destruct Hc as ([log_r l] & Hloop & Hc).
  apply bind_Ok in Hc. destruct Hc as (r' & _ & Hc).
  injection Hc as _ <-. simpl.
  eapply log_r_loop_stores; eassumption.
Qed.

(** *** The type of the value [loss_and_grads] returns, in general *)

Lemma v_binop_tensor_l f (t : tensor R) (b c : pyval R) :
  v_binop f (PTensor t) b = Ok c -> is_plain_number c = false.
Proof. destruct b; simpl; intros Hc; inv_res; reflexivity. Qed.

Lemma v_binop_tensor_r f (a c : pyval R) (u : tensor R) :
  v_binop f a (PTensor u) = Ok c -> is_plain_number c = false.
Proof. destruct a; simpl; intros Hc; inv_res; reflexivity. Qed.

Lemma v_iadd_tensor_l (t : tensor R) (b c : pyval R) :
  v_iadd (PTensor t) b = Ok c -> is_plain_number c = false.
Proof. destruct b; simpl; intros Hc; inv_res; reflexivity. Qed.

Lemma v_iadd_tensor_r (a c : pyval R) (u : tensor R) :
  v_iadd a (PTensor u) = Ok c -> is_plain_number c = false.
Proof. destruct a; simpl; intros Hc; inv_res; reflexivity. Qed.

Lemma not_plain_is_tensor (a : pyval R) :
  is_plain_number a = false -> exists t, a = PTensor t.
Proof. destruct a; [discriminate | eauto]. Qed.

Lemma site_step_elbo_tensor (guide_trace : trace R)
    (st st' : particle_state R) (k : nat) (name : string) (s : site R) :
  nodes (cur_model_trace st) !! k = Some (name, s) ->
  is_plain_number (elbo_particle st) = false \/ is_latent s = true ->
  site_step guide_trace st k = Ok st' ->
  is_plain_number (elbo_particle st') = false.
Proof.
  intros Hk Hcase Hstep. unfold site_step in Hstep.
  rewrite Hk in Hstep. simpl in Hstep. unfold is_latent in Hcase.
  destruct (is_sample s); simpl in Hcase.
  - apply bind_Ok in Hstep. destruct Hstep as (m & _ & Hstep).
    destruct (is_observed s); simpl in Hcase.
    + destruct Hcase as [Hten|]; [|discriminate].
      apply not_plain_is_tensor in Hten. destruct Hten as (t & Hten).
      apply bind_Ok in Hstep. destruct Hstep as (x & _ & Hstep).
      apply bind_Ok in Hstep. destruct Hstep as (e & He & Hstep).
      apply bind_Ok in Hstep. destruct Hstep as (su & _ & Hstep).
      injection Hstep as <-. simpl. rewrite Hten in He.
      eapply v_binop_tensor_l. exact He.
    + unfold latent_site_step in Hstep.
      apply bind_Ok in Hstep. destruct Hstep as (gs & _ & Hstep).
      apply bind_Ok in Hstep. destruct Hstep as ([[g sf] ent] & _ & Hstep).
      apply bind_Ok in Hstep. destruct Hstep as (e1 & _ & Hstep).
      apply bind_Ok in Hstep. destruct Hstep as (e & He & Hstep).
      apply bind_Ok in Hstep. destruct Hstep as (s1 & _ & Hstep).
      apply bind_Ok in Hstep. destruct Hstep as (s2 & _ & Hstep).
      assert (Hst' : elbo_particle st' = e).
      { destruct (negb (is_identically_zero sf)); inv_res; reflexivity. }
      rewrite Hst'. eapply v_binop_tensor_r. exact He.
  - destruct Hcase as [Hten|]; [|discriminate].
    injection Hstep as <-. exact Hten.
Qed.

Lemma same_but_batch_log_pdf_latent (s s' : site R) :
  same_but_batch_log_pdf s s' -> is_latent s' = is_latent s.
Proof.
  intros (Ht & Ho & _). unfold is_latent, is_sample. rewrite Ht, Ho.
  reflexivity.
Qed.

Lemma sites_loop_elbo_tensor (guide_trace : trace R)
    (model_nodes : list (string * site R)) :
  forall (n k : nat) (st st' : particle_state R),
    same_skeleton model_nodes (nodes (cur_model_trace st)) ->
    k + n = length model_nodes ->
    (is_plain_number (elbo_particle st) = false
     \/ exists j name s,
         k <= j /\ model_nodes !! j = Some (name, s) /\ is_latent s = true) ->
    sites_loop guide_trace (seq k n) st = Ok st' ->
    is_plain_number (elbo_particle st') = false.
Proof.
  induction n as [|n IH]; intros k st st' Hsk Hlen Hcase Hloop.
  - simpl in Hloop. injection Hloop as <-.
    destruct Hcase as [Hten|(j & name & s & Hj & Hlk & _)]; [exact Hten|].
    apply lookup_lt_Some in Hlk. lia.
  - simpl in Hloop.
    apply bind_Ok in Hloop. destruct Hloop as (st1 & Hstep & Hloop).
    destruct (lookup_lt_is_Some_2 model_nodes k) as [[name0 s0] Hk0]; [lia|].
    destruct (Forall2_lookup_l _ _ _ _ _ Hsk Hk0)
      as ([name1 s1] & Hk1 & _ & Hsame).
    simpl in Hsame.
    assert (Hsk1 : same_skeleton model_nodes (nodes (cur_model_trace st1))).
    { eapply same_skeleton_trans;
        [exact Hsk | eapply site_step_frame; exact Hstep]. }
    apply (IH (S k) st1 st' Hsk1); [lia | | exact Hloop].
    destruct Hcase as [Hten|(j & name & s & Hj & Hlk & Hlat)].
    + left. eapply site_step_elbo_tensor; [exact Hk1 | left; exact Hten | exact Hstep].
    + destruct (Nat.eq_dec j k) as [->|Hne].
      * left. eapply site_step_elbo_tensor; [exact Hk1 | | exact Hstep].
        right. rewrite (same_but_batch_log_pdf_latent _ _ Hsame).
        rewrite Hk0 in Hlk. injection Hlk as _ <-. exact Hlat.
      * right. exists j, name, s. split; [lia|]. split; assumption.
Qed.

Lemma particle_step_tensor (self : Trace_ELBO) (elbo elbo' : pyval R)
    (model_trace guide_trace : trace R) :
  outcome (particle_step self elbo model_trace guide_trace) = Ok elbo' ->
  is_plain_number elbo = false \/ has_latent_site model_trace = true ->
  is_plain_number elbo' = false.
Proof.
  intros Hout Hcase.
  destruct (particle_step_outcome _ _ _ _ _ Hout) as (st & q & Hst & Hq & Hadd).
  destruct Hcase as [Hten|Hlat].
  - apply not_plain_is_tensor in Hten. destruct Hten as (t & ->).
    eapply v_iadd_tensor_l. exact Hadd.
  - assert (Hst' : is_plain_number (elbo_particle st) = false).
    { unfold sites_result in Hst.
      apply (sites_loop_elbo_tensor guide_trace (nodes model_trace) _ 0 _ st)
        in Hst; [exact Hst | apply same_skeleton_refl | simpl; lia |].
      right. unfold has_latent_site in Hlat.
      apply existsb_exists in Hlat. destruct Hlat as ([name s] & Hin & Hl).
      apply list_elem_of_In, list_elem_of_lookup in Hin.
      destruct Hin as (j & Hj).
      exists j, name, s. split; [lia|]. split; assumption. }
    apply not_plain_is_tensor in Hst'. destruct Hst' as (t & Et).
    rewrite Et in Hq. simpl in Hq. injection Hq as <-.
    eapply v_iadd_tensor_r. exact Hadd.
Qed.

Lemma particles_loop_tensor (self : Trace_ELBO)
    (gen : list (result (trace R * trace R))) :
  forall elbo v : pyval R,
    outcome (particles_loop self gen elbo) = Ok v ->
    is_plain_number elbo = false
    \/ Exists (fun next => exists model_trace guide_trace,
                   next = Ok (model_trace, guide_trace)
                   /\ has_latent_site model_trace = true) gen ->
    is_plain_number v = false.
Proof.
  induction gen as [|next gen IH]; intros elbo v Hv Hcase;
    cbn [particles_loop] in Hv.
  - injection Hv as <-. destruct Hcase as [Hten|Hex]; [exact Hten|].
    inversion Hex.
  - rewrite outcome_bind in Hv.
    destruct next as [[model_trace guide_trace]|e];
      unfold lift in Hv; cbn [outcome fst snd] in Hv; [|discriminate].
    rewrite outcome_bind in Hv.
    destruct (outcome (particle_step self elbo model_trace guide_trace))
      as [elbo1|e] eqn:Estep; [|discriminate].
    apply (IH elbo1 v Hv).
    destruct Hcase as [Hten|Hex].
    + left. eapply particle_step_tensor; [exact Estep | left; exact Hten].
    + inversion Hex as [? ? (mt & gt & Heq & Hlat)|? ? Hex']; subst.
      * injection Heq as <- <-. left.
        eapply particle_step_tensor; [exact Estep | right; exact Hlat].
      * right. exact Hex'.
Qed.

(** Whenever [loss_and_grads] returns and the model trace of some particle
    has a latent sample site, the value returned is a tensor, not a plain
    number. *)
Theorem loss_and_grads_tensor_on_latent_site (eng : Engine R)
    (self : Trace_ELBO) (v : pyval R) (i : nat)
    (model_trace guide_trace : trace R) :
  outcome (loss_and_grads eng self) = Ok v ->
  i < num_particles self ->
  get_traces_body eng self i = Ok (model_trace, guide_trace) ->
  has_latent_site model_trace = true ->
  is_plain_number v = false.
Proof.
  intros Hv Hi Hpair Hlat. rewrite loss_and_grads_outcome in Hv.
  apply fmap_Ok in Hv. destruct Hv as (elbo & Hloop & ->).
  assert (Hten : is_plain_number elbo = false).
  { eapply particles_loop_tensor; [exact Hloop|]. right.
    apply Exists_exists. exists (Ok (model_trace, guide_trace)). split.
    - unfold _get_traces. apply list_elem_of_In, in_map_iff.
      exists i. split; [exact Hpair|]. apply in_seq. lia.
    - exists model_trace, guide_trace. split; [reflexivity | exact Hlat]. }
  apply not_plain_is_tensor in Hten. destruct Hten as (t & ->). reflexivity.
Qed.

Lemma log_r_loop_keeps_others stacks guide_trace target_site l :
  forall log_r log_r' l' k name (s : site R),
    log_r_loop stacks guide_trace target_site l log_r = Ok (log_r', l') ->
    l !! k = Some (name, s) ->
    is_latent s = false ->
    l' !! k = Some (name, s).
Proof.
  induction l as [|[name0 s0] l IH]; intros log_r log_r' l' k name s Hl Hk Hlat;
    [destruct k; discriminate|].
  destruct k as [|k]; simpl in Hk.
  - injection Hk as -> ->. simpl in Hl. unfold is_latent in Hlat.
    destruct (is_sample s); simpl in Hlat.
    + apply bind_Ok in Hl. destruct Hl as ([t s'] & Ht & Hl).
      inv_res. unfold log_r_term_of in Ht.
      destruct (is_observed s); [|discriminate]. simpl in Ht.
      inv_res. reflexivity.
    + inv_res. reflexivity.
  - simpl in Hl.
    assert (Hrest : exists log_r1 log_r2 l2 s0',
               log_r_loop stacks guide_trace target_site l log_r1
                 = Ok (log_r2, l2)
               /\ l' = (name0, s0') :: l2).
    { destruct (is_sample s0); inv_res; eauto 8. }
    destruct Hrest as (log_r1 & log_r2 & l2 & s0' & Hrec & ->).
    simpl. eapply IH; eassumption.
Qed.

(** What a call of [compute_site_log_r] that returns leaves unchanged: the
    names and the order of the sites, every field of every site but
    [batch_log_pdf], the plate stacks, and the whole record of every site
    that is not a latent sample site. *)
Theorem compute_site_log_r_keeps_other_fields
    (model_trace guide_trace : trace R) target_site target_shape
    (r : tensor R) (model_trace' : trace R) :
  compute_site_log_r model_trace guide_trace target_site target_shape
    = Ok (r, model_trace') ->
  same_skeleton (nodes model_trace) (nodes model_trace')
  /\ iarange_stacks model_trace' = iarange_stacks model_trace
  /\ forall k name s,
      nodes model_trace !! k = Some (name, s) -> is_latent s = false ->
      nodes model_trace' !! k = Some (name, s).
Proof.
  intros Hc.
  destruct (compute_site_log_r_frame _ _ _ _ _ _ Hc) as [Hsk Hst].
  split; [exact Hsk|]. split; [exact Hst|].
  intros k name s Hk Hlat. unfold compute_site_log_r in Hc.
  apply bind_Ok in Hc. destruct Hc as (stacks & _ & Hc).
  apply bind_Ok in Hc. destruct Hc as ([log_r l] & Hloop & Hc).
  apply bind_Ok in Hc. destruct Hc as (r' & _ & Hc).
  injection Hc as _ <-. simpl.
  eapply log_r_loop_keeps_others; eassumption.
Qed.

(** *** The generator yields validated pairs *)

Lemma check_sample_sites_checked (eng : Engine R) (self : Trace_ELBO)
    (l : list (string * site R)) :
  check_sample_sites eng self l = Ok tt -> sample_sites_checked eng self l.
Proof.
  unfold sample_sites_checked.
  induction l as [|[name0 s0] l IH]; simpl; intros Hc name s Hin Hs;
    [contradiction|].
  destruct Hin as [E|Hin].
  - injection E as -> ->. rewrite Hs in Hc.
    destruct (check_site_shape eng s (max_iarange_nesting self)) as [[]|];
      [reflexivity | discriminate].
  - apply (fun Hc' => IH Hc' name s Hin Hs).
    destruct (is_sample s0); [|exact Hc].
    destruct (check_site_shape eng s0 (max_iarange_nesting self)) as [[]|];
      [exact Hc | discriminate].
Qed.

(** Every trace pair the generator yields comes from one execution of the
    guide and one replay of the model that [check_model_guide_match]
    accepted, pruned and with its densities computed, and every sample site
    of both traces has passed [check_site_shape] with the configured
    nesting bound. *)
Theorem get_traces_yields_checked_pairs (eng : Engine R) (self : Trace_ELBO)
    (i : nat) (model_trace guide_trace : trace R) :
  get_traces_body eng self i = Ok (model_trace, guide_trace) ->
  sample_sites_checked eng self (nodes model_trace)
  /\ sample_sites_checked eng self (nodes guide_trace)
  /\ exists guide_trace0 model_trace0,
      guide_get_trace eng i = Ok guide_trace0
      /\ model_replay_get_trace eng i guide_trace0 = Ok model_trace0
      /\ check_model_guide_match eng model_trace0 guide_trace0 = Ok tt
      /\ compute_batch_log_pdf eng (prune_subsample_sites eng model_trace0)
         = Ok model_trace
      /\ compute_score_parts eng (prune_subsample_sites eng guide_trace0)
         = Ok guide_trace.
Proof.
  unfold get_traces_body. intros Hb.
  apply bind_Ok in Hb. destruct Hb as (g0 & Hg0 & Hb).
  apply bind_Ok in Hb. destruct Hb as (m0 & Hm0 & Hb).
  apply bind_Ok in Hb. destruct Hb as ([] & Hmatch & Hb).
  apply bind_Ok in Hb. destruct Hb as (m1 & Hm1 & Hb).
  apply bind_Ok in Hb. destruct Hb as (g1 & Hg1 & Hb).
  apply bind_Ok in Hb. destruct Hb as ([] & Hcm & Hb).
  apply bind_Ok in Hb. destruct Hb as ([] & Hcg & Hb).
  injection Hb as <- <-.
  split; [apply check_sample_sites_checked; exact Hcm|].
  split; [apply check_sample_sites_checked; exact Hcg|].
  exists g0, m0. repeat split; assumption.
Qed.

(** *** A failing particle *)

Lemma loss_loop_app (self : Trace_ELBO)
    (gen1 gen2 : list (result (trace R * trace R))) :
  forall elbo,
    loss_loop self (gen1 ++ gen2) elbo
    = loss_loop self gen1 elbo ≫= loss_loop self gen2.
Proof.
  induction gen1 as [|next gen1 IH]; intros elbo; simpl; [reflexivity|].
  destruct next as [[mt gt]|e]; simpl; [|reflexivity].
  destruct (elbo_particle_of mt gt) as [d|e]; simpl; [|reflexivity].
  destruct (num_particles self =? 0); simpl; [reflexivity|].
  apply IH.
Qed.

(** When the generator raises at some particle after [loss] has consumed
    the earlier ones, [loss] raises the same exception and emits nothing,
    also no warning. *)
Theorem loss_raises_what_the_generator_raises (eng : Engine R)
    (self : Trace_ELBO) (pairs : list (trace R * trace R)) (e : exn)
    (rest : list (result (trace R * trace R))) (elbo : R) :
  _get_traces eng self = map Ok pairs ++ Err e :: rest ->
  loss_loop self (map Ok pairs) s_zero = Ok elbo ->
  loss eng self = Eff (Err e) [].
Proof.
  intros Hgen Hloop. unfold loss.
  rewrite Hgen, loss_loop_app, Hloop. reflexivity.
Qed.

Lemma particles_loop_app (self : Trace_ELBO)
    (gen1 gen2 : list (result (trace R * trace R))) :
  forall elbo,
    particles_loop self (gen1 ++ gen2) elbo
    = particles_loop self gen1 elbo ≫= particles_loop self gen2.
Proof.
  induction gen1 as [|next gen1 IH]; intros elbo; cbn [app particles_loop].
  - unfold mbind, eff_bind, mret, eff_ret. simpl.
    destruct (particles_loop self gen2 elbo). reflexivity.
  - unfold mbind, eff_bind, lift. simpl.
    destruct next as [[mt gt]|e]; simpl; [|reflexivity].
    destruct (particle_step self elbo mt gt) as [[elbo1|e1] ev1]; simpl;
      [|reflexivity].
    rewrite IH. unfold mbind, eff_bind.
    destruct (particles_loop self gen1 elbo1) as [[elbo2|e2] ev2]; simpl;
      [|reflexivity].
    rewrite !app_assoc. reflexivity.
Qed.

(** When the generator raises at some particle after [loss_and_grads] has
    processed the earlier ones, [loss_and_grads] raises the same exception;
    the backward passes and parameter reports of the earlier particles have
    been performed, and no warning is emitted. *)
Theorem loss_and_grads_keeps_earlier_backward_passes (eng : Engine R)
    (self : Trace_ELBO) (pairs : list (trace R * trace R)) (e : exn)
    (rest : list (result (trace R * trace R))) (elbo : pyval R) :
  _get_traces eng self = map Ok pairs ++ Err e :: rest ->
  outcome (particles_loop self (map Ok pairs) (PNum s_zero)) = Ok elbo ->
  outcome (loss_and_grads eng self) = Err e
  /\ events (loss_and_grads eng self)
     = flat_map (fun p => backward_events self p.1 p.2) pairs.
Proof.
  intros Hgen Hloop.
  destruct (particles_loop_events _ _ _ _ Hloop) as (pairs' & Hpairs & Hev).
  assert (Hsame : pairs' = pairs).
  { clear -Hpairs. revert pairs' Hpairs.
    induction pairs as [|p pairs IH]; intros [|p' pairs'] Hp;
      try discriminate; [reflexivity|].
    simpl in Hp. injection Hp as -> Hp. f_equal. apply IH. exact Hp. }
  subst pairs'.
  rewrite loss_and_grads_outcome, loss_and_grads_events.
  rewrite Hgen, particles_loop_app.
  rewrite outcome_bind, events_bind, Hloop.
  cbn [particles_loop]. rewrite outcome_bind, events_bind.
  unfold lift. cbn [outcome events]. rewrite Hev.
  split; [reflexivity|]. rewrite !app_nil_r. reflexivity.
Qed.

(** *** Traces that [compute_site_log_r] does not write *)

Lemma log_r_loop_no_latent stacks guide_trace target_site
    (l : list (string * site R)) :
  existsb (fun ns => is_latent ns.2) l = false ->
  forall log_r log_r' l',
    log_r_loop stacks guide_trace target_site l log_r = Ok (log_r', l') ->
    l' = l.
Proof.
  induction l as [|[name s] l IH]; simpl; intros Hlat log_r log_r' l' Hl.
  - inv_res. reflexivity.
  - apply orb_false_elim in Hlat. destruct Hlat as [Hs Hlat].
    unfold is_latent in Hs.
    destruct (is_sample s); simpl in Hs.
    + apply bind_Ok in Hl. destruct Hl as ([t s'] & Ht & Hl).
      inv_res. unfold log_r_term_of in Ht.
      destruct (is_observed s); [|discriminate]. simpl in Ht.
      inv_res. f_equal. eapply IH; eassumption.
    + inv_res. f_equal. eapply IH; eassumption.
Qed.

(** On a model trace without latent sample sites (every sample site is
    observed), a call of [compute_site_log_r] that returns leaves the whole
    model trace as it was. *)
Theorem compute_site_log_r_reads_only_observed
    (model_trace guide_trace : trace R) target_site target_shape
    (r : tensor R) (model_trace' : trace R) :
  has_latent_site model_trace = false ->
  compute_site_log_r model_trace guide_trace target_site target_shape
    = Ok (r, model_trace') ->
  model_trace' = model_trace.
Proof.
  unfold has_latent_site, compute_site_log_r. intros Hlat Hc.
  apply bind_Ok in Hc. destruct Hc as (stacks & _ & Hc).
  apply bind_Ok in Hc. destruct Hc as ([log_r l] & Hloop & Hc).
  apply bind_Ok in Hc. destruct Hc as (r' & _ & Hc).
  injection Hc as _ <-.
  rewrite (log_r_loop_no_latent _ _ _ _ Hlat _ _ _ Hloop).
  destruct model_trace. reflexivity.
Qed.

Lemma log_r_loop_no_sample stacks guide_trace target_site
    (l : list (string * site R)) :
  existsb (fun ns => is_sample ns.2) l = false ->
  forall log_r,
    log_r_loop stacks guide_trace target_site l log_r = Ok (log_r, l).
Proof.
  induction l as [|[name s] l IH]; simpl; intros Hs log_r; [reflexivity|].
  apply orb_false_elim in Hs. destruct Hs as [Hs Hl].
  rewrite Hs, (IH Hl). reflexivity.
Qed.

(** On a model trace that has plate stacks and no sample site,
    [compute_site_log_r] does not raise, whatever the guide trace and the
    target site: it returns the zero tensor of the target shape and the
    trace as it was. *)
Theorem compute_site_log_r_without_sample_sites
    (model_trace guide_trace : trace R) target_site target_shape stacks :
  iarange_stacks model_trace = Some stacks ->
  has_sample_site model_trace = false ->
  compute_site_log_r model_trace guide_trace target_site target_shape
  = Ok (zeros target_shape, model_trace).
Proof.
  unfold has_sample_site, compute_site_log_r. intros Hst Hs.
  rewrite Hst. simpl. rewrite (log_r_loop_no_sample _ _ _ _ Hs). simpl.
  destruct model_trace. simpl in Hst. rewrite Hst. reflexivity.
Qed.

(** *** What a returning run of [loss_and_grads] implies for its pairs *)

Lemma particles_loop_sites_results (self : Trace_ELBO)
    (gen : list (result (trace R * trace R))) :
  forall elbo v : pyval R,
    outcome (particles_loop self gen elbo) = Ok v ->
    forall next, In next gen ->
      exists model_trace guide_trace st,
        next = Ok (model_trace, guide_trace)
        /\ sites_result model_trace guide_trace = Ok st.
Proof.
  induction gen as [|next0 gen IH]; intros elbo v Hv next Hin;
    [contradiction|].
  cbn [particles_loop] in Hv. rewrite outcome_bind in Hv.
  destruct next0 as [[mt gt]|e];
    unfold lift in Hv; cbn [outcome fst snd] in Hv; [|discriminate].
  rewrite outcome_bind in Hv.
  destruct (outcome (particle_step self elbo mt gt)) as [elbo1|e] eqn:Estep;
    [|discriminate].
  destruct Hin as [<-|Hin].
  - destruct (particle_step_outcome _ _ _ _ _ Estep) as (st & q & Hst & _).
    exists mt, gt, st. split; [reflexivity | exact Hst].
  - eapply IH; eassumption.
Qed.

Lemma loss_and_grads_sites_results (eng : Engine R) (self : Trace_ELBO)
    (v : pyval R) (i : nat) (model_trace guide_trace : trace R) :
  outcome (loss_and_grads eng self) = Ok v ->
  i < num_particles self ->
  get_traces_body eng self i = Ok (model_trace, guide_trace) ->
  exists st, sites_result model_trace guide_trace = Ok st.
Proof.
  intros Hv Hi Hpair. rewrite loss_and_grads_outcome in Hv.
  apply fmap_Ok in Hv. destruct Hv as (elbo & Hloop & _).
  destruct (particles_loop_sites_results _ _ _ _ Hloop
              (Ok (model_trace, guide_trace)))
    as (mt & gt & st & Heq & Hst).
  - unfold _get_traces. apply in_map_iff. exists i.
    split; [exact Hpair|]. apply in_seq. lia.
  - injection Heq as <- <-. exists st. exact Hst.
Qed.

Lemma sites_loop_guide_sites (guide_trace : trace R)
    (model_nodes : list (string * site R)) :
  forall (n k : nat) (st st' : particle_state R) j name s,
    same_skeleton model_nodes (nodes (cur_model_trace st)) ->
    k + n = length model_nodes ->
    k <= j ->
    model_nodes !! j = Some (name, s) ->
    is_latent s = true ->
    sites_loop guide_trace (seq k n) st = Ok st' ->
    exists guide_site sp,
      assoc name (nodes guide_trace) = Some guide_site
      /\ score_parts guide_site = Some sp.
Proof.
  induction n as [|n IH]; intros k st st' j name s Hsk Hlen Hj Hlk Hlat Hloop.
  - apply lookup_lt_Some in Hlk. lia.
  - simpl in Hloop.
    apply bind_Ok in Hloop. destruct Hloop as (st1 & Hstep & Hloop).
    destruct (Nat.eq_dec j k) as [->|Hne].
    + destruct (Forall2_lookup_l _ _ _ _ _ Hsk Hlk)
        as ([name1 s1] & Hk1 & Hn1 & Hsame).
      simpl in Hn1, Hsame. subst name1.
      pose proof (same_but_batch_log_pdf_latent _ _ Hsame) as Hl1.
      rewrite Hlat in Hl1. unfold is_latent in Hl1.
      unfold site_step in Hstep. rewrite Hk1 in Hstep. simpl in Hstep.
      destruct (is_sample s1); [|discriminate].
      apply bind_Ok in Hstep. destruct Hstep as (m & _ & Hstep).
      destruct (is_observed s1); [discriminate|].
      unfold latent_site_step in Hstep.
      apply bind_Ok in Hstep. destruct Hstep as (gs & Hgs & Hstep).
      apply bind_Ok in Hstep. destruct Hstep as (sp & Hsp & _).
      destruct (assoc name (nodes guide_trace)) as [gs'|]; simpl in Hgs;
        [|discriminate].
      injection Hgs as ->.
      destruct (score_parts gs) as [sp'|] eqn:Esp; simpl in Hsp;
        [|discriminate].
      exists gs, sp'. split; [reflexivity | exact Esp].
    + eapply (IH (S k) st1 st' j name s); try eassumption; try lia.
      eapply same_skeleton_trans;
        [exact Hsk | eapply site_step_frame; exact Hstep].
Qed.

(** Whenever [loss_and_grads] returns, every latent sample site of the
    model trace of every particle has a site of the same name in the guide
    trace, and that site has [score_parts]: on a pair where one is missing,
    [loss_and_grads] raises. *)
Theorem loss_and_grads_needs_guide_sites (eng : Engine R)
    (self : Trace_ELBO) (v : pyval R) (i : nat)
    (model_trace guide_trace : trace R) (name : string) (s : site R) :
  outcome (loss_and_grads eng self) = Ok v ->
  i < num_particles self ->
  get_traces_body eng self i = Ok (model_trace, guide_trace) ->
  In (name, s) (nodes model_trace) ->
  is_latent s = true ->
  exists guide_site sp,
    assoc name (nodes guide_trace) = Some guide_site
    /\ score_parts guide_site = Some sp.
Proof.
  intros Hv Hi Hpair Hin Hlat.
  destruct (loss_and_grads_sites_results _ _ _ _ _ _ Hv Hi Hpair)
    as (st & Hst).
  apply list_elem_of_In, list_elem_of_lookup in Hin.
  destruct Hin as (j & Hj).
  unfold sites_result in Hst.
  apply (sites_loop_guide_sites guide_trace (nodes model_trace) _ 0 _ st j
           name s) in Hst;
    [exact Hst | apply same_skeleton_refl | simpl; lia | lia
     | exact Hj | exact Hlat].
Qed.

(** *** Guides without score-function terms *)

Lemma site_step_reparameterized (guide_trace : trace R)
    (st st' : particle_state R) (k : nat) :
  reparameterized_guide guide_trace ->
  site_step guide_trace st k = Ok st' ->
  cur_model_trace st' = cur_model_trace st.
Proof.
  intros Hrep Hstep. unfold site_step in Hstep.
  apply bind_Ok in Hstep. destruct Hstep as ([name s] & _ & Hstep).
  destruct (is_sample s); [|injection Hstep as <-; reflexivity].
  apply bind_Ok in Hstep. destruct Hstep as (m & _ & Hstep).
  destruct (is_observed s).
  - inv_res. reflexivity.
  - unfold latent_site_step in Hstep.
    apply bind_Ok in Hstep. destruct Hstep as (gs & Hgs & Hstep).
    apply bind_Ok in Hstep. destruct Hstep as ([[g sf] ent] & Hsp & Hstep).
    apply bind_Ok in Hstep. destruct Hstep as (e1 & _ & Hstep).
    apply bind_Ok in Hstep. destruct Hstep as (e & _ & Hstep).
    apply bind_Ok in Hstep. destruct Hstep as (s1 & _ & Hstep).
    apply bind_Ok in Hstep. destruct Hstep as (s2 & _ & Hstep).
    destruct (assoc name (nodes guide_trace)) as [gs'|] eqn:Ea;
      simpl in Hgs; [|discriminate].
    injection Hgs as ->.
    destruct (score_parts gs) as [sp|] eqn:Es; simpl in Hsp; [|discriminate].
    injection Hsp as ->.
    rewrite (Hrep name gs g sf ent (assoc_In _ _ _ Ea) Es) in Hstep.
    simpl in Hstep. injection Hstep as <-. reflexivity.
Qed.

(** With a guide that has no score-function term at any site, the loop of
    [loss_and_grads] over the sites of a trace pair never calls
    [compute_site_log_r]: when it ends, the model trace is as the generator
    yielded it. *)
Theorem reparameterized_guide_keeps_model_trace
    (model_trace guide_trace : trace R) (st : particle_state R) :
  reparameterized_guide guide_trace ->
  sites_result model_trace guide_trace = Ok st ->
  cur_model_trace st = model_trace.
Proof.
  intros Hrep. unfold sites_result.
  generalize (seq 0 (length (nodes model_trace))).
  assert (Hgen : forall ks (st0 st1 : particle_state R),
             sites_loop guide_trace ks st0 = Ok st1 ->
             cur_model_trace st1 = cur_model_trace st0).
  { induction ks as [|k ks IH]; simpl; intros st0 st1 Hl.
    - injection Hl as <-. reflexivity.
    - apply bind_Ok in Hl. destruct Hl as (st2 & Hstep & Hl).
      rewrite (IH _ _ Hl).
      eapply site_step_reparameterized; eassumption. }
  intros ks Hl. apply Hgen in Hl. exact Hl.
Qed.

(** *** Models without latent sites *)

Lemma site_step_plain (guide_trace : trace R)
    (st st' : particle_state R) (k : nat) :
  has_latent_site (cur_model_trace st) = false ->
  is_plain_number (elbo_particle st) = true ->
  site_step guide_trace st k = Ok st' ->
  is_plain_number (elbo_particle st') = true
  /\ cur_model_trace st' = cur_model_trace st.
Proof.
  intros Hlat Hplain Hstep. unfold site_step in Hstep.
  apply bind_Ok in Hstep. destruct Hstep as ([name s] & Hk & Hstep).
  destruct (nodes (cur_model_trace st) !! k) as [ns|] eqn:Elk;
    simpl in Hk; [|discriminate].
  injection Hk as ->.
  assert (Hs : is_latent s = false).
  { unfold has_latent_site in Hlat.
    destruct (is_latent s) eqn:El; [|reflexivity].
    assert (Hex : existsb (fun ns => is_latent ns.2)
                    (nodes (cur_model_trace st)) = true).
    { apply existsb_exists. exists (name, s). split; [|exact El].
      apply list_elem_of_In. eapply list_elem_of_lookup_2. exact Elk. }
    congruence. }
  unfold is_latent in Hs.
  destruct (is_sample s); simpl in Hs;
    [|injection Hstep as <-; split; [exact Hplain | reflexivity]].
  apply bind_Ok in Hstep. destruct Hstep as (m & _ & Hstep).
  destruct (is_observed s); [|discriminate].
  apply bind_Ok in Hstep. destruct Hstep as (x & _ & Hstep).
  apply bind_Ok in Hstep. destruct Hstep as (e & He & Hstep).
  apply bind_Ok in Hstep. destruct Hstep as (su & _ & Hstep).
  injection Hstep as <-. simpl. split; [|reflexivity].
  destruct (elbo_particle st); [|discriminate].
  simpl in He. injection He as <-. reflexivity.
Qed.

Lemma sites_loop_plain (guide_trace : trace R) (ks : list nat) :
  forall st st' : particle_state R,
    has_latent_site (cur_model_trace st) = false ->
    is_plain_number (elbo_particle st) = true ->
    sites_loop guide_trace ks st = Ok st' ->
    is_plain_number (elbo_particle st') = true.
Proof.
  induction ks as [|k ks IH]; simpl; intros st st' Hlat Hplain Hl.
  - injection Hl as <-. exact Hplain.
  - apply bind_Ok in Hl. destruct Hl as (st1 & Hstep & Hl).
    destruct (site_step_plain _ _ _ _ Hlat Hplain Hstep) as [Hp1 Hc1].
    apply (IH st1 st'); [rewrite Hc1; exact Hlat | exact Hp1 | exact Hl].
Qed.

Lemma particle_step_plain (self : Trace_ELBO) (elbo elbo' : pyval R)
    (model_trace guide_trace : trace R) :
  has_latent_site model_trace = false ->
  is_plain_number elbo = true ->
  outcome (particle_step self elbo model_trace guide_trace) = Ok elbo' ->
  is_plain_number elbo' = true.
Proof.
  intros Hlat Hplain Hout.
  destruct (particle_step_outcome _ _ _ _ _ Hout) as (st & q & Hst & Hq & Hadd).
  unfold sites_result in Hst.
  apply sites_loop_plain in Hst; [|exact Hlat|reflexivity].
  destruct (elbo_particle st) as [x|]; [|discriminate].
  simpl in Hq. destruct (num_particles self =? 0); [discriminate|].
  injection Hq as <-.
  destruct elbo as [y|]; [|discriminate].
  simpl in Hadd. injection Hadd as <-. reflexivity.
Qed.

Lemma particles_loop_plain (self : Trace_ELBO)
    (gen : list (result (trace R * trace R))) :
  (forall model_trace guide_trace,
      In (Ok (model_trace, guide_trace)) gen ->
      has_latent_site model_trace = false) ->
  forall elbo v : pyval R,
    is_plain_number elbo = true ->
    outcome (particles_loop self gen elbo) = Ok v ->
    is_plain_number v = true.
Proof.
  induction gen as [|next gen IH]; intros Hall elbo v Hplain Hv;
    cbn [particles_loop] in Hv.
  - injection Hv as <-. exact Hplain.
  - rewrite outcome_bind in Hv.
    destruct next as [[mt gt]|e];
      unfold lift in Hv; cbn [outcome fst snd] in Hv; [|discriminate].
    rewrite outcome_bind in Hv.
    destruct (outcome (particle_step self elbo mt gt)) as [elbo1|e] eqn:Estep;
      [|discriminate].
    apply (IH (fun m g Hin => Hall m g (or_intror Hin)) elbo1 v); [|exact Hv].
    eapply particle_step_plain; [|exact Hplain|exact Estep].
    apply (Hall mt gt). left. reflexivity.
Qed.

(** When no model trace of the run has a latent sample site (every sample
    site is observed), the value a returning [loss_and_grads] returns is a
    plain number. *)
Theorem loss_and_grads_number_without_latent_sites (eng : Engine R)
    (self : Trace_ELBO) (v : pyval R) :
  (forall i model_trace guide_trace,
      i < num_particles self ->
      get_traces_body eng self i = Ok (model_trace, guide_trace) ->
      has_latent_site model_trace = false) ->
  outcome (loss_and_grads eng self) = Ok v ->
  is_plain_number v = true.
Proof.
  intros Hall Hv. rewrite loss_and_grads_outcome in Hv.
  apply fmap_Ok in Hv. destruct Hv as (elbo & Hloop & ->).
  assert (Hp : is_plain_number elbo = true).
  { eapply particles_loop_plain; [| |exact Hloop]; [|reflexivity].
    intros mt gt Hin. unfold _get_traces in Hin.
    apply in_map_iff in Hin. destruct Hin as (i & Hb & Hi).
    apply in_seq in Hi. apply (Hall i mt gt); [lia | exact Hb]. }
  destruct elbo; [reflexivity | discriminate].
Qed.

(** *** The surrogate at a latent site *)

(** The stores of the latent branch, in the order of lines 104 to 111. *)
Lemma latent_site_step_chain (guide_trace : trace R)
    (st st' : particle_state R) (k : nat) (name : string)
    (model_site guide_site : site R) (model_log_pdf guide_log_pdf : tensor R)
    (score_function_term entropy_term : pyval R) :
  nodes (cur_model_trace st) !! k = Some (name, model_site) ->
  is_sample model_site = true ->
  is_observed model_site = false ->
  log_pdf model_site = Some model_log_pdf ->
  assoc name (nodes guide_trace) = Some guide_site ->
  score_parts guide_site
    = Some (guide_log_pdf, score_function_term, entropy_term) ->
  site_step guide_trace st k = Ok st' ->
  exists s1 s2,
    v_add (surrogate_elbo_particle st) (PTensor model_log_pdf) = Ok s1
    /\ (if is_identically_zero entropy_term then s2 = s1
        else exists es,
            v_sum entropy_term = Ok es /\ v_isub s1 (PTensor es) = Ok s2)
    /\ (if is_identically_zero score_function_term
        then surrogate_elbo_particle st' = s2
        else exists log_r_site model_trace' p ps,
            compute_site_log_r (cur_model_trace st) guide_trace name
              (shape guide_log_pdf) = Ok (log_r_site, model_trace')
            /\ v_mul (PTensor log_r_site) score_function_term = Ok p
            /\ v_sum p = Ok ps
            /\ v_add s2 (PTensor ps) = Ok (surrogate_elbo_particle st')).
Proof.
  intros Hk Hsample Hobs Hlp Hg Hsp Hstep.
  unfold site_step in Hstep. rewrite Hk in Hstep. simpl in Hstep.
  rewrite Hsample, Hlp in Hstep. simpl in Hstep. rewrite Hobs in Hstep.
  unfold latent_site_step in Hstep. rewrite Hg in Hstep. simpl in Hstep.
  rewrite Hsp in Hstep. simpl in Hstep.
  apply bind_Ok in Hstep. destruct Hstep as (e1 & _ & Hstep).
  apply bind_Ok in Hstep. destruct Hstep as (e & _ & Hstep).
  apply bind_Ok in Hstep. destruct Hstep as (s1 & Hs1 & Hstep).
  apply bind_Ok in Hstep. destruct Hstep as (s2 & Hs2 & Hstep).
  exists s1, s2. split; [exact Hs1|]. split.
  - destruct (is_identically_zero entropy_term); simpl in Hs2.
    + injection Hs2 as ->. reflexivity.
    + apply bind_Ok in Hs2. destruct Hs2 as (es & Hes & Hs2). eauto.
  - destruct (is_identically_zero score_function_term); simpl in Hstep.
    + injection Hstep as <-. reflexivity.
    + apply bind_Ok in Hstep. destruct Hstep as ([r mt'] & Hc & Hstep).
      apply bind_Ok in Hstep. destruct Hstep as (p & Hp & Hstep).
      apply bind_Ok in Hstep. destruct Hstep as (ps & Hps & Hstep).
      apply bind_Ok in Hstep. destruct Hstep as (s3 & Hs3 & Hstep).
      injection Hstep as <-. simpl. eauto 8.
Qed.

Lemma v_binop__value f (a b c : pyval R) (x y : R) :
  pv_value a x -> pv_value b y -> v_binop_ f a b = Ok c ->
  pv_value c (f x y).
Proof.
  destruct a as [x'|t]; [apply v_binop_value|].
  destruct b as [y'|u]; [apply v_binop_value|].
  simpl. intros [Hs Hd] [Hs' Hd'] Hc.
  unfold v_binop_, t_binop_ in Hc.
  destruct (expandable (shape u) (shape t)); simpl in Hc; [|discriminate].
  inv_res. simpl. split; [exact Hs|].
  unfold expand_to. rewrite Hs, Hs', Hd, Hd'. reflexivity.
Qed.

Lemma v_sum_value (a : pyval R) (es : tensor R) :
  v_sum a = Ok es ->
  exists t, a = PTensor t
            /\ pv_value (PTensor es) (fold_left s_add (data t) s_zero).
Proof.
  destruct a as [x|t]; simpl; intros Hs; [discriminate|].
  injection Hs as <-. exists t. split; [reflexivity|].
  split; reflexivity.
Qed.

Lemma v_mul_elements (t : tensor R) (a p : pyval R) :
  v_mul (PTensor t) a = Ok p ->
  exists tp, p = PTensor tp /\ product_elements t a = Some (data tp).
Proof.
  unfold v_mul. destruct a as [c|u]; simpl; intros Hp.
  - injection Hp as <-. eexists. split; reflexivity.
  - unfold t_binop in Hp.
    destruct (broadcast_shapes (shape t) (shape u)) as [s|];
      simpl in Hp; [|discriminate].
    injection Hp as <-. eexists. split; reflexivity.
Qed.

(** C5: at a sample site of the model trace that is not observed, the
    surrogate accumulator receives the model log-density; then, unless the
    entropy term of the guide is identically zero, the sum of the entropy
    term is subtracted from it; then, unless the score-function term is
    identically zero, the sum of the product of that term with the site's
    log-ratio is added, the log-ratio being computed by [compute_site_log_r]
    with the shape of the guide log-density as target shape.

    On numbers: when the accumulator holds [a] and the model log-density of
    the site is the scalar [m], the accumulator holds after the site
    [a + m], minus the sum of the elements of the entropy term (which is
    then a tensor), plus the sum of the elements of the product of the
    log-ratio and the score-function term. *)
Theorem latent_site_surrogate (guide_trace : trace R)
    (st st' : particle_state R) (k : nat) (name : string)
    (model_site guide_site : site R) (model_log_pdf guide_log_pdf : tensor R)
    (score_function_term entropy_term : pyval R) :
  nodes (cur_model_trace st) !! k = Some (name, model_site) ->
  is_sample model_site = true ->
  is_observed model_site = false ->
  log_pdf model_site = Some model_log_pdf ->
  assoc name (nodes guide_trace) = Some guide_site ->
  score_parts guide_site
    = Some (guide_log_pdf, score_function_term, entropy_term) ->
  site_step guide_trace st k = Ok st' ->
  (exists s1 s2,
    v_add (surrogate_elbo_particle st) (PTensor model_log_pdf) = Ok s1
    /\ (if is_identically_zero entropy_term then s2 = s1
        else exists es,
            v_sum entropy_term = Ok es /\ v_isub s1 (PTensor es) = Ok s2)
    /\ (if is_identically_zero score_function_term
        then surrogate_elbo_particle st' = s2
        else exists log_r_site model_trace' p ps,
            compute_site_log_r (cur_model_trace st) guide_trace name
              (shape guide_log_pdf) = Ok (log_r_site, model_trace')
            /\ v_mul (PTensor log_r_site) score_function_term = Ok p
            /\ v_sum p = Ok ps
            /\ v_add s2 (PTensor ps) = Ok (surrogate_elbo_particle st')))
  /\ forall a m : R,
      pv_value (surrogate_elbo_particle st) a ->
      pv_value (PTensor model_log_pdf) m ->
      exists x2 x3 : R,
        (if is_identically_zero entropy_term then x2 = s_add a m
         else exists t,
             entropy_term = PTensor t
             /\ x2 = s_sub (s_add a m) (fold_left s_add (data t) s_zero))
        /\ (if is_identically_zero score_function_term then x3 = x2
            else exists log_r_site model_trace' prod,
                compute_site_log_r (cur_model_trace st) guide_trace name
                  (shape guide_log_pdf) = Ok (log_r_site, model_trace')
                /\ product_elements log_r_site score_function_term
                   = Some prod
                /\ x3 = s_add x2 (fold_left s_add prod s_zero))
        /\ pv_value (surrogate_elbo_particle st') x3.
Proof.
  intros Hk Hsample Hobs Hlp Hg Hsp Hstep.
  pose proof (latent_site_step_chain _ _ _ _ _ _ _ _ _ _ _
                Hk Hsample Hobs Hlp Hg Hsp Hstep) as Hchain.
  split; [exact Hchain|].
  destruct Hchain as (s1 & s2 & Hs1 & Hs2 & Hs3).
  intros a m Ha Hm.
  pose proof (v_binop_value _ _ _ _ _ _ Ha Hm Hs1) as Hv1.
  assert (Hx2 : exists x2,
             (if is_identically_zero entropy_term then x2 = s_add a m
              else exists t,
                  entropy_term = PTensor t
                  /\ x2 = s_sub (s_add a m)
                            (fold_left s_add (data t) s_zero))
             /\ pv_value s2 x2).
  { destruct (is_identically_zero entropy_term).
    - subst s2. exists (s_add a m). split; [reflexivity|exact Hv1].
    - destruct Hs2 as (es & Hes & Hsub).
      destruct (v_sum_value _ _ Hes) as (t & -> & Hves).
      eexists. split; [exists t; split; reflexivity|].
      exact (v_binop__value _ _ _ _ _ _ Hv1 Hves Hsub). }
  destruct Hx2 as (x2 & Hx2 & Hv2).
  destruct (is_identically_zero score_function_term).
  - exists x2, x2. split; [exact Hx2|]. split; [reflexivity|].
    rewrite Hs3. exact Hv2.
  - destruct Hs3 as (log_r_site & model_trace' & p & ps & Hc & Hp & Hps & Hs3).
    destruct (v_mul_elements _ _ _ Hp) as (tp & -> & Hprod).
    destruct (v_sum_value _ _ Hps) as (t' & Et & Hvps).
    injection Et as <-.
    exists x2, (s_add x2 (fold_left s_add (data tp) s_zero)).
    split; [exact Hx2|]. split.
    + exists log_r_site, model_trace', (data tp). auto.
    + exact (v_binop_value _ _ _ _ _ _ Hv2 Hvps Hs3).
Qed.

End Properties.

(** ** Evaluations on the concrete traces *)

Lemma compute_site_log_r_all_sites_witness :
  compute_site_log_r modelZ guideZ "x" []
    = Ok (scalar_tensor (-6)%Z false, modelZ_after)
  /\ all_sites_log_r modelZ guideZ "x" [] = Ok (scalar_tensor (-6)%Z false)
  /\ shape (scalar_tensor (-6)%Z false) = []
  /\ wf_tensor (scalar_tensor (-6)%Z false).
Proof.
  assert (Hcall : compute_site_log_r modelZ guideZ "x" []
                  = Ok (scalar_tensor (-6)%Z false, modelZ_after))
    by reflexivity.
  split; [exact Hcall|].
  destruct (compute_site_log_r_all_sites modelZ guideZ "x" []
              (scalar_tensor (-6)%Z false) modelZ_after Hcall)
    as (Hsum & Hshape & Hwf).
  split; [exact Hsum|]. split; [exact Hshape|].
  apply Hwf.
  - intros name s t [E|[E|[]]] Hb; injection E as <- <-;
      simpl in Hb; injection Hb as <-; reflexivity.
  - intros name s g sf ent [E|[]] Hsp. injection E as <- <-.
    simpl in Hsp. injection Hsp as <- _ _. reflexivity.
Defined.

(** C1, as stated, fails: for the model with the latent site [x] and the
    observed site [y], the log-ratio of the target [x] is [-6], the terms
    of [x] (-3 - -1) and of [y] (-4), where the sum over the sites other
    than the target is [-4]. *)
Lemma compute_site_log_r_includes_target :
  fst <$> compute_site_log_r modelZ guideZ "x" []
    = Ok (scalar_tensor (-6)%Z false)
  /\ other_sites_log_r modelZ guideZ "x" [] = Ok (scalar_tensor (-4)%Z false)
  /\ fst <$> compute_site_log_r modelZ guideZ "x" []
     <> other_sites_log_r modelZ guideZ "x" [].
Proof.
  split; [reflexivity|]. split; [reflexivity|].
  vm_compute. discriminate.
Qed.

Lemma compute_site_log_r_detached_witness :
  compute_site_log_r model_xy guide_x "x" []
    = Ok (scalar_tensor (-3)%float false, model_xy_after)
  /\ requires_grad (scalar_tensor (-3)%float false) = false.
Proof.
  split; [reflexivity|].
  apply (compute_site_log_r_detached model_xy guide_x "x" []
           (scalar_tensor (-3)%float false) model_xy_after).
  reflexivity.
Defined.

Lemma loss_negated_average_witness :
  outcome (loss (fixed_engine model_xy guide_x) (estimator 2))
  = Ok (s_neg (average [(-3)%float; (-3)%float] 2)).
Proof.
  apply (loss_negated_average (fixed_engine model_xy guide_x) (estimator 2)
           [(-3)%float; (-3)%float]).
  - simpl. lia.
  - simpl. repeat constructor;
      exists model_xy, guide_x, (scalar_tensor (-3.5)%float true),
        (scalar_tensor (-0.5)%float true), (scalar_tensor (-3)%float true);
      repeat split; reflexivity.
Defined.

Lemma matched_modelZ_guideZ : matched_pair modelZ guideZ.
Proof.
  split.
  - intros name s t [E|[E|[]]] Hs Hl; injection E as <- <-;
      simpl in Hl; injection Hl as <-; split; reflexivity.
  - simpl. repeat constructor. intros Hin. inversion Hin.
  - reflexivity.
  - intros name s [E|[]] Hs. injection E as <- <-.
    eexists _, _, _. split; reflexivity.
Defined.

Lemma loss_and_grads_agrees_with_loss_witness :
  outcome (loss (fixed_engine modelZ guideZ) (estimator 1)) = Ok 6%Z
  /\ outcome (loss_and_grads (fixed_engine modelZ guideZ) (estimator 1))
     = Ok (PTensor (scalar_tensor 6%Z false))
  /\ v_item (PTensor (scalar_tensor 6%Z false)) = Ok 6%Z.
Proof.
  split; [reflexivity|]. split; [reflexivity|].
  apply (loss_and_grads_agrees_with_loss (ExactScalar0 := Z_exact)
           (fixed_engine modelZ guideZ) (estimator 1) modelZ guideZ
           6%Z (PTensor (scalar_tensor 6%Z false))).
  - reflexivity.
  - reflexivity.
  - exact matched_modelZ_guideZ.
  - reflexivity.
  - reflexivity.
Defined.

(** C4 on the code: the guide has the auxiliary latent site [aux], which
    passes the structural check (and would not pass it unmarked), whose
    density [loss] subtracts and the loop over the model sites of
    [loss_and_grads] never reads.  In exact arithmetic, on the same trace
    pair and with one particle, [loss] returns [1] and [loss_and_grads]
    returns [6]. *)
Theorem loss_and_grads_differs_from_loss :
  get_traces_body (checking_engine ["aux"] modelZ guideZ_aux) (estimator 1) 0
    = Ok (modelZ, guideZ_aux)
  /\ check_model_guide_match_spec [] modelZ guideZ_aux
     = Err (External "model and guide do not match")
  /\ outcome (loss (checking_engine ["aux"] modelZ guideZ_aux) (estimator 1))
     = Ok 1%Z
  /\ outcome (loss_and_grads (checking_engine ["aux"] modelZ guideZ_aux)
                (estimator 1))
     = Ok (PTensor (scalar_tensor 6%Z false))
  /\ v_item (PTensor (scalar_tensor 6%Z false)) <> Ok 1%Z.
Proof.
  split; [reflexivity|]. split; [reflexivity|].
  split; [reflexivity|]. split; [reflexivity|].
  vm_compute. discriminate.
Qed.

Lemma latent_site_surrogate_witness :
  site_step guide_plate state_plate_before 0 = Ok state_plate_after
  /\ exists x2 x3 : Z,
      (exists t,
          PTensor (Tensor [2] [1; 4]%Z true) = PTensor t
          /\ x2 = ((0 + -3) - fold_left Z.add (data t) 0)%Z)
      /\ (exists log_r_site model_trace' prod,
             compute_site_log_r model_plate guide_plate "x" [2]
               = Ok (log_r_site, model_trace')
             /\ product_elements log_r_site
                  (PTensor (Tensor [2] [2; 3]%Z true)) = Some prod
             /\ x3 = (x2 + fold_left Z.add prod 0)%Z)
      /\ pv_value (PTensor (scalar_tensor (-21)%Z true)) x3.
Proof.
  assert (Hstep : site_step guide_plate state_plate_before 0
                  = Ok state_plate_after) by reflexivity.
  split; [exact Hstep|].
  exact (proj2
           (latent_site_surrogate guide_plate state_plate_before
              state_plate_after 0 "x"
              (mk_sample false (scalar_tensor (-3)%Z false)
                               (Tensor [2] [-1; -2]%Z false))
              (mk_guide_sample (Tensor [2] [-1; -1]%Z false)
                 (PTensor (Tensor [2] [2; 3]%Z true))
                 (PTensor (Tensor [2] [1; 4]%Z true)))
              (scalar_tensor (-3)%Z false)
              (Tensor [2] [-1; -1]%Z false)
              (PTensor (Tensor [2] [2; 3]%Z true))
              (PTensor (Tensor [2] [1; 4]%Z true))
              eq_refl eq_refl eq_refl eq_refl eq_refl eq_refl Hstep)
           0%Z (-3)%Z eq_refl (conj eq_refl eq_refl)).
Defined.


Lemma nan_loss_warned_and_returned_witness :
  loss (fixed_engine model_inf guide_inf) (estimator 1)
    = Eff (Ok nan) [Warn "Encountered NAN loss"]
  /\ outcome (loss_and_grads (fixed_engine model_inf guide_inf) (estimator 1))
     = Ok (PTensor (scalar_tensor nan false))
  /\ events (loss_and_grads (fixed_engine model_inf guide_inf) (estimator 1))
     = [Warn "Encountered NAN loss"].
Proof.
  destruct (nan_loss_warned_and_returned
              (fixed_engine model_inf guide_inf) (estimator 1)) as [Hl Hg].
  split.
  - apply (Hl nan); reflexivity.
  - apply (Hg (PTensor (scalar_tensor nan false))); reflexivity.
Defined.

Lemma zero_particles_return_negated_zero_witness :
  _get_traces (fixed_engine model_xy guide_x) (estimator 0) = []
  /\ outcome (loss (fixed_engine model_xy guide_x) (estimator 0))
     = Ok (s_neg s_zero)
  /\ events (loss (fixed_engine model_xy guide_x) (estimator 0))
     = events (warn_if_nan (PNum (s_neg s_zero)))
  /\ outcome (loss_and_grads (fixed_engine model_xy guide_x) (estimator 0))
     = Ok (PNum (s_neg s_zero))
  /\ events (loss_and_grads (fixed_engine model_xy guide_x) (estimator 0))
     = events (warn_if_nan (PNum (s_neg s_zero))).
Proof.
  apply (zero_particles_return_negated_zero
           (fixed_engine model_xy guide_x) (estimator 0)).
  reflexivity.
Defined.

(** C8, as stated, fails: with [num_particles = 0] both entry points
    return [-0.0], without an error and without a warning. *)
Lemma zero_particles_no_error :
  loss (fixed_engine model_xy guide_x) (estimator 0)
    = Eff (Ok (-0)%float) []
  /\ loss_and_grads (fixed_engine model_xy guide_x) (estimator 0)
     = Eff (Ok (PNum (-0)%float)) [].
Proof. split; reflexivity. Qed.

(** C10 on the code: for the model with the latent site [x],
    [loss_and_grads] returns a tensor that requires gradients, where [loss]
    returns the number [3.0]; for the model with the observed site [y]
    alone it returns the number [2.0]. *)
Theorem loss_and_grads_returns_tensor :
  outcome (loss_and_grads (fixed_engine model_xy guide_x) (estimator 1))
    = Ok (PTensor (scalar_tensor 3%float true))
  /\ is_plain_number (PTensor (scalar_tensor 3%float true)) = false
  /\ v_requires_grad (PTensor (scalar_tensor 3%float true)) = true
  /\ outcome (loss (fixed_engine model_xy guide_x) (estimator 1))
     = Ok 3%float
  /\ outcome (loss_and_grads (fixed_engine model_y guide_empty) (estimator 1))
     = Ok (PNum 2%float).
Proof. repeat split; reflexivity. Qed.

(** C2 on the code: one call of [compute_site_log_r] on the model with the
    latent site [x] stores [-3 - -1 = -2] in the [batch_log_pdf] of [x],
    which was [-3] before the call: the in-place subtraction writes through
    the alias of the tensor held by the trace.  A second call on the trace
    the first one left subtracts the guide density again, and returns [-5]
    where the first call returned [-6]. *)
Theorem compute_site_log_r_writes_batch_log_pdf :
  compute_site_log_r modelZ guideZ "x" []
    = Ok (scalar_tensor (-6)%Z false, modelZ_after)
  /\ (assoc "x" (nodes modelZ) ≫= batch_log_pdf)
     = Some (scalar_tensor (-3)%Z false)
  /\ (assoc "x" (nodes modelZ_after) ≫= batch_log_pdf)
     = Some (scalar_tensor (-2)%Z false)
  /\ modelZ_after <> modelZ
  /\ fst <$> compute_site_log_r modelZ_after guideZ "x" []
     = Ok (scalar_tensor (-5)%Z false).
Proof.
  split; [reflexivity|]. split; [reflexivity|]. split; [reflexivity|].
  split; [|reflexivity].
  vm_compute. discriminate.
Qed.

Lemma compute_site_log_r_keeps_other_fields_witness :
  same_skeleton (nodes modelZ) (nodes modelZ_after)
  /\ iarange_stacks modelZ_after = iarange_stacks modelZ
  /\ forall k name s,
      nodes modelZ !! k = Some (name, s) -> is_latent s = false ->
      nodes modelZ_after !! k = Some (name, s).
Proof.
  apply (compute_site_log_r_keeps_other_fields modelZ guideZ "x" []
           (scalar_tensor (-6)%Z false) modelZ_after).
  reflexivity.
Defined.

Lemma compute_site_log_r_stores_difference_witness :
  exists b guide_site g sf ent t,
    batch_log_pdf (mk_sample false (scalar_tensor (-3)%Z false)
                                   (scalar_tensor (-3)%Z false)) = Some b
    /\ assoc "x" (nodes guideZ) = Some guide_site
    /\ score_parts guide_site = Some (g, sf, ent)
    /\ t_binop_ s_sub b g = Ok t
    /\ nodes modelZ_after !! 0
       = Some ("x", set_batch_log_pdf
                      (mk_sample false (scalar_tensor (-3)%Z false)
                                       (scalar_tensor (-3)%Z false)) t).
Proof.
  apply (compute_site_log_r_stores_difference modelZ guideZ "x" []
           (scalar_tensor (-6)%Z false) modelZ_after 0 "x"
           (mk_sample false (scalar_tensor (-3)%Z false)
                            (scalar_tensor (-3)%Z false)));
    reflexivity.
Defined.

Lemma loss_and_grads_tensor_on_latent_site_witness :
  is_plain_number (PTensor (scalar_tensor 3%float true)) = false.
Proof.
  apply (loss_and_grads_tensor_on_latent_site
           (fixed_engine model_xy guide_x) (estimator 1)
           (PTensor (scalar_tensor 3%float true)) 0 model_xy guide_x).
  - reflexivity.
  - simpl. lia.
  - reflexivity.
  - reflexivity.
Defined.

(** ** Evaluations for the further properties *)

Lemma get_traces_yields_checked_pairs_witness :
  sample_sites_checked (fixed_engine model_xy guide_x) (estimator 1)
    (nodes model_xy)
  /\ sample_sites_checked (fixed_engine model_xy guide_x) (estimator 1)
       (nodes guide_x)
  /\ exists guide_trace0 model_trace0,
      guide_get_trace (fixed_engine model_xy guide_x) 0 = Ok guide_trace0
      /\ model_replay_get_trace (fixed_engine model_xy guide_x) 0 guide_trace0
         = Ok model_trace0
      /\ check_model_guide_match (fixed_engine model_xy guide_x)
           model_trace0 guide_trace0 = Ok tt
      /\ compute_batch_log_pdf (fixed_engine model_xy guide_x)
           (prune_subsample_sites (fixed_engine model_xy guide_x) model_trace0)
         = Ok model_xy
      /\ compute_score_parts (fixed_engine model_xy guide_x)
           (prune_subsample_sites (fixed_engine model_xy guide_x) guide_trace0)
         = Ok guide_x.
Proof.
  apply (get_traces_yields_checked_pairs (fixed_engine model_xy guide_x)
           (estimator 1) 0 model_xy guide_x).
  reflexivity.
Defined.

Lemma loss_raises_what_the_generator_raises_witness :
  loss second_particle_mismatch (estimator 2)
  = Eff (Err (External "model and guide do not match")) [].
Proof.
  apply (loss_raises_what_the_generator_raises second_particle_mismatch
           (estimator 2) [(model_xy, guide_x)]
           (External "model and guide do not match") [] (-1.5)%float);
    reflexivity.
Defined.

Lemma loss_and_grads_keeps_earlier_backward_passes_witness :
  outcome (loss_and_grads second_particle_mismatch (estimator 2))
    = Err (External "model and guide do not match")
  /\ events (loss_and_grads second_particle_mismatch (estimator 2))
     = flat_map (fun p => backward_events (estimator 2) p.1 p.2)
         [(model_xy, guide_x)].
Proof.
  apply (loss_and_grads_keeps_earlier_backward_passes second_particle_mismatch
           (estimator 2) [(model_xy, guide_x)]
           (External "model and guide do not match") []
           (PTensor (scalar_tensor (-1.5)%float true)));
    reflexivity.
Defined.

Lemma compute_site_log_r_reads_only_observed_witness :
  compute_site_log_r model_y guide_empty "y" []
    = Ok (scalar_tensor (-2)%float false, model_y)
  /\ model_y = model_y.
Proof.
  split; [reflexivity|].
  apply (compute_site_log_r_reads_only_observed model_y guide_empty "y" []
           (scalar_tensor (-2)%float false) model_y);
    reflexivity.
Defined.

Lemma compute_site_log_r_without_sample_sites_witness :
  compute_site_log_r guide_empty guide_x "x" [2]
  = Ok (zeros [2], guide_empty).
Proof.
  apply (compute_site_log_r_without_sample_sites guide_empty guide_x "x" [2]
           []);
    reflexivity.
Defined.

Lemma loss_and_grads_needs_guide_sites_witness :
  exists guide_site sp,
    assoc "x" (nodes guide_x) = Some guide_site
    /\ score_parts guide_site = Some sp.
Proof.
  apply (loss_and_grads_needs_guide_sites (fixed_engine model_xy guide_x)
           (estimator 1) (PTensor (scalar_tensor 3%float true)) 0
           model_xy guide_x "x"
           (mk_sample false (scalar_tensor (-1.5)%float true)
                            (scalar_tensor (-1.5)%float true))).
  - reflexivity.
  - simpl. lia.
  - reflexivity.
  - left. reflexivity.
  - reflexivity.
Defined.

Lemma reparameterized_guideZ : reparameterized_guide guideZ.
Proof.
  intros name s g sf ent [E|[]] Hsp. injection E as <- <-.
  simpl in Hsp. injection Hsp as _ <- _. reflexivity.
Defined.

Lemma reparameterized_guide_keeps_model_trace_witness :
  sites_result modelZ guideZ = Ok stateZ_end
  /\ cur_model_trace stateZ_end = modelZ.
Proof.
  split; [reflexivity|].
  apply (reparameterized_guide_keeps_model_trace modelZ guideZ stateZ_end).
  - exact reparameterized_guideZ.
  - reflexivity.
Defined.

Lemma loss_and_grads_number_without_latent_sites_witness :
  is_plain_number (PNum 2%float) = true.
Proof.
  apply (loss_and_grads_number_without_latent_sites
           (fixed_engine model_y guide_empty) (estimator 1) (PNum 2%float)).
  - intros i model_trace guide_trace _ Hb. injection Hb as <- _. reflexivity.
  - reflexivity.
Defined.


(** * Properties of cleannb *)

Lemma nbres_bind_Done {A B} (m : nbres A) (f : A -> nbres B) (b : B) :
  m ≫= f = Done b -> exists a, m = Done a /\ f a = Done b.
Proof.
  destruct m as [a|e]; simpl; intros Hb; [|discriminate].
  exists a. split; [reflexivity | exact Hb].
Qed.

Lemma assoc_dict_set_eq (key : string) (x : json) (m : list (string * json)) :
  assoc key (dict_set key x m) = Some x.
Proof.
  induction m as [|[k y] m IH]; simpl.
  - rewrite String.eqb_refl. reflexivity.
  - destruct (String.eqb key k) eqn:E; simpl; rewrite E; [reflexivity|].
    exact IH.
Qed.

Lemma assoc_dict_set_ne (key key' : string) (x : json)
    (m : list (string * json)) :
  String.eqb key' key = false ->
  assoc key' (dict_set key x m) = assoc key' m.
Proof.
  intros Hne. induction m as [|[k y] m IH]; simpl.
  - rewrite Hne. reflexivity.
  - destruct (String.eqb key k) eqn:E; simpl.
    + apply String.eqb_eq in E. subst k. rewrite Hne. reflexivity.
    + rewrite IH. reflexivity.
Qed.

Lemma dict_set_same (key : string) (x : json) (m : list (string * json)) :
  assoc key m = Some x -> dict_set key x m = m.
Proof.
  induction m as [|[k y] m IH]; simpl; [discriminate|].
  destruct (String.eqb key k); intros E.
  - injection E as ->. reflexivity.
  - rewrite (IH E). reflexivity.
Qed.

Lemma getitem_Done (v x : json) (key : string) :
  getitem v key = Done x -> exists m, v = JObj m /\ assoc key m = Some x.
Proof.
  destruct v; simpl; try discriminate.
  destruct (assoc key m) eqn:E; [|discriminate].
  intros Hx. injection Hx as ->. eauto.
Qed.

Lemma setitem_at_Done (path : list string) (key : string) (x v v' : json) :
  setitem_at path key x v = Done v' -> exists m m', v = JObj m /\ v' = JObj m'.
Proof.
  destruct path as [|p path]; simpl.
  - destruct v; simpl; try discriminate. intros E. injection E as <-. eauto.
  - intros E. apply nbres_bind_Done in E. destruct E as (child & Hg & E).
    apply getitem_Done in Hg. destruct Hg as (m & -> & _).
    apply nbres_bind_Done in E. destruct E as (child' & _ & E).
    simpl in E. injection E as <-. eauto.
Qed.

(** A store is read back at its own path. *)
Lemma get_setitem_at_same (path : list string) (key : string) (x : json) :
  forall v v',
    setitem_at path key x v = Done v' ->
    get_path (path ++ [key]) v' = Done x.
Proof.
  induction path as [|p path IH]; simpl; intros v v' Hs.
  - destruct v; simpl in Hs; try discriminate. injection Hs as <-.
    simpl. rewrite assoc_dict_set_eq. reflexivity.
  - apply nbres_bind_Done in Hs. destruct Hs as (child & Hg & Hs).
    apply getitem_Done in Hg. destruct Hg as (m & -> & Hm).
    apply nbres_bind_Done in Hs. destruct Hs as (child' & Hc & Hs).
    simpl in Hs. injection Hs as <-. simpl.
    rewrite assoc_dict_set_eq. simpl. eapply IH. exact Hc.
Qed.

(** A store leaves what is read at a path that parts from its own. *)
Lemma get_setitem_at_other (path : list string) (key : string) (x : json) :
  forall v v' q,
    setitem_at path key x v = Done v' ->
    diverge q (path ++ [key]) = true ->
    get_path q v' = get_path q v.
Proof.
  induction path as [|p path IH]; simpl; intros v v' q Hs Hd.
  - destruct v; simpl in Hs; try discriminate. injection Hs as <-.
    destruct q as [|a q]; [discriminate|]. simpl in Hd.
    destruct (String.eqb a key) eqn:E.
    + destruct q; discriminate.
    + simpl. rewrite (assoc_dict_set_ne _ _ _ _ E). reflexivity.
  - apply nbres_bind_Done in Hs. destruct Hs as (child & Hg & Hs).
    apply getitem_Done in Hg. destruct Hg as (m & -> & Hm).
    apply nbres_bind_Done in Hs. destruct Hs as (child' & Hc & Hs).
    simpl in Hs. injection Hs as <-.
    destruct q as [|a q]; [discriminate|]. simpl in Hd.
    destruct (String.eqb a p) eqn:E.
    + apply String.eqb_eq in E. subst a. simpl.
      rewrite assoc_dict_set_eq, Hm. simpl. eapply IH; eassumption.
    + simpl. rewrite (assoc_dict_set_ne _ _ _ _ E). reflexivity.
Qed.

(** A store of the value that is already there changes nothing. *)
Lemma setitem_at_noop (path : list string) (key : string) (x : json) :
  forall v,
    get_path (path ++ [key]) v = Done x ->
    setitem_at path key x v = Done v.
Proof.
  induction path as [|p path IH]; simpl; intros v Hg.
  - apply nbres_bind_Done in Hg. destruct Hg as (y & Hy & Hg).
    injection Hg as ->.
    apply getitem_Done in Hy. destruct Hy as (m & -> & Hm).
    simpl. rewrite (dict_set_same _ _ _ Hm). reflexivity.
  - apply nbres_bind_Done in Hg. destruct Hg as (child & Hc & Hg).
    pose proof Hc as Hc'.
    apply getitem_Done in Hc'. destruct Hc' as (m & -> & Hm).
    rewrite Hc. simpl. rewrite (IH _ Hg). simpl.
    rewrite (dict_set_same _ _ _ Hm). reflexivity.
Qed.

Lemma clean_metadata_steps (nb nb' : json) :
  clean_metadata nb = Done nb' ->
  exists n1 n2 n3 n4,
    setitem_at ["metadata"; "kernelspec"] "display_name" (JStr "Python 2") nb
      = Done n1
    /\ setitem_at ["metadata"; "kernelspec"] "name" (JStr "python2") n1
       = Done n2
    /\ setitem_at ["metadata"; "language_info"; "codemirror_mode"] "version"
         (JInt 2) n2 = Done n3
    /\ setitem_at ["metadata"; "language_info"] "pygments_lexer"
         (JStr "ipython2") n3 = Done n4
    /\ setitem_at ["metadata"; "language_info"] "version" (JStr "2.7.14") n4
       = Done nb'.
Proof.
  unfold clean_metadata. intros Hc.
  apply nbres_bind_Done in Hc. destruct Hc as (n1 & H1 & Hc).
  apply nbres_bind_Done in Hc. destruct Hc as (n2 & H2 & Hc).
  apply nbres_bind_Done in Hc. destruct Hc as (n3 & H3 & Hc).
  apply nbres_bind_Done in Hc. destruct Hc as (n4 & H4 & Hc).
  exists n1, n2, n3, n4. repeat split; assumption.
Qed.

(** After [clean_metadata] the five entries read back as written: the
    display name "Python 2", the kernel name "python2", the codemirror
    version 2, the lexer "ipython2" and the language version "2.7.14". *)
Theorem clean_metadata_sets_entries (nb nb' : json) :
  clean_metadata nb = Done nb' -> cleaned nb'.
Proof.
  intros Hc.
  destruct (clean_metadata_steps _ _ Hc)
    as (n1 & n2 & n3 & n4 & H1 & H2 & H3 & H4 & H5).
  unfold cleaned, cleaned_entries.
  repeat constructor; simpl fst; simpl snd.
  - rewrite
      (get_setitem_at_other _ _ _ _ _
         ["metadata"; "kernelspec"; "display_name"] H5 eq_refl),
      (get_setitem_at_other _ _ _ _ _
         ["metadata"; "kernelspec"; "display_name"] H4 eq_refl),
      (get_setitem_at_other _ _ _ _ _
         ["metadata"; "kernelspec"; "display_name"] H3 eq_refl),
      (get_setitem_at_other _ _ _ _ _
         ["metadata"; "kernelspec"; "display_name"] H2 eq_refl).
    exact (get_setitem_at_same _ _ _ _ _ H1).
  - rewrite
      (get_setitem_at_other _ _ _ _ _
         ["metadata"; "kernelspec"; "name"] H5 eq_refl),
      (get_setitem_at_other _ _ _ _ _
         ["metadata"; "kernelspec"; "name"] H4 eq_refl),
      (get_setitem_at_other _ _ _ _ _
         ["metadata"; "kernelspec"; "name"] H3 eq_refl).
    exact (get_setitem_at_same _ _ _ _ _ H2).
  - rewrite
      (get_setitem_at_other _ _ _ _ _
         ["metadata"; "language_info"; "codemirror_mode"; "version"]
         H5 eq_refl),
      (get_setitem_at_other _ _ _ _ _
         ["metadata"; "language_info"; "codemirror_mode"; "version"]
         H4 eq_refl).
    exact (get_setitem_at_same _ _ _ _ _ H3).
  - rewrite
      (get_setitem_at_other _ _ _ _ _
         ["metadata"; "language_info"; "pygments_lexer"] H5 eq_refl).
    exact (get_setitem_at_same _ _ _ _ _ H4).
  - exact (get_setitem_at_same _ _ _ _ _ H5).
Qed.

(** [clean_metadata] changes nothing else: whatever is read at a path that
    parts from the paths of the five entries (the cells, the format
    version, the other keys of the metadata) reads the same afterwards. *)
Theorem clean_metadata_keeps_other_paths (nb nb' : json) (q : list string) :
  clean_metadata nb = Done nb' ->
  Forall (fun e => diverge q e.1 = true) cleaned_entries ->
  get_path q nb' = get_path q nb.
Proof.
  intros Hc Hq.
  destruct (clean_metadata_steps _ _ Hc)
    as (n1 & n2 & n3 & n4 & H1 & H2 & H3 & H4 & H5).
  unfold cleaned_entries in Hq.
  inversion Hq as [|? ? D1 Hq1]; subst.
  inversion Hq1 as [|? ? D2 Hq2]; subst.
  inversion Hq2 as [|? ? D3 Hq3]; subst.
  inversion Hq3 as [|? ? D4 Hq4]; subst.
  inversion Hq4 as [|? ? D5 _]; subst.
  simpl in D1, D2, D3, D4, D5.
  rewrite (get_setitem_at_other _ _ _ _ _ _ H5 D5),
    (get_setitem_at_other _ _ _ _ _ _ H4 D4),
    (get_setitem_at_other _ _ _ _ _ _ H3 D3),
    (get_setitem_at_other _ _ _ _ _ _ H2 D2).
  exact (get_setitem_at_other _ _ _ _ _ _ H1 D1).
Qed.

Lemma nbres_bind_Done_l {A B} (a : A) (f : A -> nbres B) :
  Done a ≫= f = f a.
Proof. reflexivity. Qed.

Lemma clean_metadata_cleaned (nb : json) :
  cleaned nb -> clean_metadata nb = Done nb.
Proof.
  unfold cleaned, cleaned_entries. intros Hc.
  inversion Hc as [|? ? G1 Hc1]; subst.
  inversion Hc1 as [|? ? G2 Hc2]; subst.
  inversion Hc2 as [|? ? G3 Hc3]; subst.
  inversion Hc3 as [|? ? G4 Hc4]; subst.
  inversion Hc4 as [|? ? G5 _]; subst.
  simpl fst in *. simpl snd in *.
  unfold clean_metadata.
  rewrite (setitem_at_noop ["metadata"; "kernelspec"] "display_name" _ _ G1),
    nbres_bind_Done_l.
  rewrite (setitem_at_noop ["metadata"; "kernelspec"] "name" _ _ G2),
    nbres_bind_Done_l.
  rewrite (setitem_at_noop ["metadata"; "language_info"; "codemirror_mode"]
             "version" _ _ G3), nbres_bind_Done_l.
  rewrite (setitem_at_noop ["metadata"; "language_info"] "pygments_lexer"
             _ _ G4), nbres_bind_Done_l.
  exact (setitem_at_noop ["metadata"; "language_info"] "version" _ _ G5).
Qed.

(** [clean_metadata] is idempotent: on the notebook it returned, it returns
    that notebook again. *)
Theorem clean_metadata_idempotent (nb nb' : json) :
  clean_metadata nb = Done nb' -> clean_metadata nb' = Done nb'.
Proof.
  intros Hc. apply clean_metadata_cleaned.
  exact (clean_metadata_sets_entries _ _ Hc).
Qed.

(** *** When [clean_metadata] raises *)

Lemma setitem_at_succeeds (path : list string) (key : string) (x : json) :
  forall v,
    (exists v', setitem_at path key x v = Done v') <-> is_dict_at path v.
Proof.
  unfold is_dict_at.
  induction path as [|p path IH]; simpl; intros v.
  - destruct v; simpl; split; intros [y Hy]; try discriminate; eauto.
  - split.
    + intros [v' Hs].
      apply nbres_bind_Done in Hs. destruct Hs as (child & Hg & Hs).
      apply nbres_bind_Done in Hs. destruct Hs as (child' & Hc & _).
      rewrite Hg. simpl. apply IH. eauto.
    + intros [m Hm].
      apply nbres_bind_Done in Hm. destruct Hm as (child & Hg & Hm).
      rewrite Hg. simpl.
      destruct (proj2 (IH child)) as [child' Hc]; [eauto|].
      rewrite Hc. simpl.
      apply getitem_Done in Hg. destruct Hg as (m0 & -> & _).
      simpl. eauto.
Qed.

Lemma eqb_false_sym (a b : string) :
  String.eqb a b = false -> String.eqb b a = false.
Proof. rewrite (String.eqb_sym a b). trivial. Qed.

Lemma setitem_at_keeps_dicts (path : list string) (key : string) (x : json) :
  forall v v' c,
    setitem_at path key x v = Done v' ->
    is_prefix (path ++ [key]) c = false ->
    (is_dict_at c v' <-> is_dict_at c v).
Proof.
  unfold is_dict_at.
  induction path as [|p path IH]; intros v v' c Hs Hp.
  - simpl in Hs. destruct v; simpl in Hs; try discriminate.
    injection Hs as <-.
    destruct c as [|a c]; simpl.
    + split; intros _; eauto.
    + simpl in Hp. rewrite andb_true_r in Hp.
      rewrite (assoc_dict_set_ne _ _ _ _ (eqb_false_sym _ _ Hp)).
      reflexivity.
  - simpl in Hs.
    apply nbres_bind_Done in Hs. destruct Hs as (child & Hg & Hs).
    apply getitem_Done in Hg. destruct Hg as (m & -> & Hm).
    apply nbres_bind_Done in Hs. destruct Hs as (child' & Hc & Hs).
    simpl in Hs. injection Hs as <-.
    destruct c as [|a c]; simpl.
    + split; intros _; eauto.
    + simpl in Hp.
      destruct (String.eqb p a) eqn:E; simpl in Hp.
      * apply String.eqb_eq in E. subst a.
        rewrite assoc_dict_set_eq, Hm. simpl.
        apply (IH child child' c Hc Hp).
      * rewrite (assoc_dict_set_ne _ _ _ _ (eqb_false_sym _ _ E)).
        reflexivity.
Qed.

Lemma is_dict_at_parent (c : list string) (key : string) :
  forall v, is_dict_at (c ++ [key]) v -> is_dict_at c v.
Proof.
  unfold is_dict_at.
  induction c as [|a c IH]; simpl; intros v [m Hm].
  - apply nbres_bind_Done in Hm. destruct Hm as (y & Hy & _).
    apply getitem_Done in Hy. destruct Hy as (m0 & -> & _). eauto.
  - apply nbres_bind_Done in Hm. destruct Hm as (child & Hg & Hm).
    rewrite Hg. simpl. apply IH. eauto.
Qed.

(** [clean_metadata] returns exactly on the notebooks in which
    [nb["metadata"]["kernelspec"]] and
    [nb["metadata"]["language_info"]["codemirror_mode"]] are dicts; on every
    other notebook it raises. *)
Theorem clean_metadata_succeeds_iff (nb : json) :
  (exists nb', clean_metadata nb = Done nb')
  <-> is_dict_at ["metadata"; "kernelspec"] nb
      /\ is_dict_at ["metadata"; "language_info"; "codemirror_mode"] nb.
Proof.
  split.
  - intros [nb' Hc].
    destruct (clean_metadata_steps _ _ Hc)
      as (n1 & n2 & n3 & n4 & H1 & H2 & H3 & H4 & H5).
    split.
    + apply (setitem_at_succeeds ["metadata"; "kernelspec"] "display_name"
               (JStr "Python 2")).
      eauto.
    + refine (proj1 (setitem_at_keeps_dicts _ _ _ _ _ _ H1 _) _); [reflexivity|].
      refine (proj1 (setitem_at_keeps_dicts _ _ _ _ _ _ H2 _) _); [reflexivity|].
      apply (setitem_at_succeeds
               ["metadata"; "language_info"; "codemirror_mode"] "version"
               (JInt 2)).
      eauto.
  - intros [Hk Hm].
    pose proof (is_dict_at_parent ["metadata"; "language_info"]
                  "codemirror_mode" nb Hm) as Hl.
    destruct (proj2 (setitem_at_succeeds ["metadata"; "kernelspec"]
                       "display_name" (JStr "Python 2") nb) Hk) as [n1 H1].
    assert (Hk1 : is_dict_at ["metadata"; "kernelspec"] n1)
      by (refine (proj2 (setitem_at_keeps_dicts _ _ _ _ _ _ H1 _) _); [reflexivity|]; exact Hk).
    destruct (proj2 (setitem_at_succeeds ["metadata"; "kernelspec"]
                       "name" (JStr "python2") n1) Hk1) as [n2 H2].
    assert (Hm2 : is_dict_at
                    ["metadata"; "language_info"; "codemirror_mode"] n2).
    { refine (proj2 (setitem_at_keeps_dicts _ _ _ _ _ _ H2 _) _); [reflexivity|].
      refine (proj2 (setitem_at_keeps_dicts _ _ _ _ _ _ H1 _) _); [reflexivity|]. exact Hm. }
    destruct (proj2 (setitem_at_succeeds
                       ["metadata"; "language_info"; "codemirror_mode"]
                       "version" (JInt 2) n2) Hm2) as [n3 H3].
    assert (Hl3 : is_dict_at ["metadata"; "language_info"] n3).
    { refine (proj2 (setitem_at_keeps_dicts _ _ _ _ _ _ H3 _) _); [reflexivity|].
      refine (proj2 (setitem_at_keeps_dicts _ _ _ _ _ _ H2 _) _); [reflexivity|].
      refine (proj2 (setitem_at_keeps_dicts _ _ _ _ _ _ H1 _) _); [reflexivity|]. exact Hl. }
    destruct (proj2 (setitem_at_succeeds ["metadata"; "language_info"]
                       "pygments_lexer" (JStr "ipython2") n3) Hl3)
      as [n4 H4].
    assert (Hl4 : is_dict_at ["metadata"; "language_info"] n4)
      by (refine (proj2 (setitem_at_keeps_dicts _ _ _ _ _ _ H4 _) _); [reflexivity|]; exact Hl3).
    destruct (proj2 (setitem_at_succeeds ["metadata"; "language_info"]
                       "version" (JStr "2.7.14") n4) Hl4) as [n5 H5].
    exists n5. unfold clean_metadata.
    rewrite H1, nbres_bind_Done_l, H2, nbres_bind_Done_l,
      H3, nbres_bind_Done_l, H4, nbres_bind_Done_l.
    exact H5.
Qed.

(** *** The files *)

Section Files.
Context (fmt : NbFormat).
Implicit Types (fs : gmap string (nb_content fmt)) (nbfile : string).

Lemma read_and_clean_Done nbfile fs nb' :
  read_and_clean fmt nbfile fs = Done nb' ->
  exists c nb,
    fs !! nbfile = Some c /\ nb_read fmt c = Done nb
    /\ clean_metadata nb = Done nb'.
Proof.
  unfold read_and_clean. intros Hr.
  destruct (fs !! nbfile) as [c|]; [|discriminate].
  apply nbres_bind_Done in Hr. destruct Hr as (nb & Hr & Hm).
  exists c, nb. auto.
Qed.

Lemma cleannb_Done nbfile fs fs' (u : unit) :
  cleannb fmt nbfile fs = (fs', Done u) ->
  exists nb' c',
    read_and_clean fmt nbfile fs = Done nb'
    /\ nb_write fmt nb' = (c', Done tt)
    /\ fs' = <[nbfile := c']> fs.
Proof.
  unfold cleannb. intros Hc.
  destruct (read_and_clean fmt nbfile fs) as [nb'|e]; [|discriminate].
  destruct (nb_write fmt nb') as [c' [[]|e]] eqn:Hw; simpl in Hc;
    [|discriminate].
  injection Hc as <-. exists nb', c'.
  rewrite insert_insert_eq. auto.
Qed.


Lemma cleannb_other nbfile fs other :
  other <> nbfile -> (cleannb fmt nbfile fs).1 !! other = fs !! other.
Proof.
  intros Hne. unfold cleannb.
  destruct (read_and_clean fmt nbfile fs) as [nb'|e]; [|reflexivity].
  destruct (nb_write fmt nb') as [c' r]. simpl.
  rewrite !lookup_insert_ne by congruence. reflexivity.
Qed.

Lemma cleannb_holds_cleaned nbfile fs fs' (u : unit) :
  cleannb fmt nbfile fs = (fs', Done u) -> holds_cleaned fmt fs' nbfile.
Proof.
  intros Hc.
  apply cleannb_Done in Hc. destruct Hc as (nb' & c' & Hr & Hw & ->).
  apply read_and_clean_Done in Hr. destruct Hr as (c & nb & _ & _ & Hm).
  exists nb', c'. split; [apply lookup_insert_eq|]. split; [exact Hw|].
  exact (clean_metadata_sets_entries _ _ Hm).
Qed.

Lemma cleannb_keeps_cleaned nbfile fs fs' (u : unit) other :
  cleannb fmt nbfile fs = (fs', Done u) ->
  holds_cleaned fmt fs other -> holds_cleaned fmt fs' other.
Proof.
  intros Hc Hh.
  destruct (decide (other = nbfile)) as [->|Hne].
  - exact (cleannb_holds_cleaned _ _ _ _ Hc).
  - destruct Hh as (nb & c & Hf & Hw & Hcl). exists nb, c.
    split; [|auto].
    replace fs' with (cleannb fmt nbfile fs).1 by now rewrite Hc.
    rewrite cleannb_other; assumption.
Qed.

Lemma main_cons nbfile nbfiles fs :
  main fmt (nbfile :: nbfiles) fs
  = match (cleannb fmt nbfile fs).2 with
    | Done _ => main fmt nbfiles (cleannb fmt nbfile fs).1
    | Raised e => ((cleannb fmt nbfile fs).1, Raised e)
    end.
Proof. simpl. destruct (cleannb fmt nbfile fs) as [fs' [u|e]]; reflexivity. Qed.

Lemma main_keeps_cleaned nbfiles : forall fs fs' (u : unit) other,
  main fmt nbfiles fs = (fs', Done u) ->
  holds_cleaned fmt fs other -> holds_cleaned fmt fs' other.
Proof.
  induction nbfiles as [|f fl IH]; intros fs fs' u other Hm Hh.
  - simpl in Hm. injection Hm as <- _. exact Hh.
  - rewrite main_cons in Hm.
    destruct (cleannb fmt f fs) as [fs1 [[]|e]] eqn:Hc; simpl in Hm;
      [|discriminate].
    apply (IH _ _ _ _ Hm).
    exact (cleannb_keeps_cleaned _ _ _ _ _ Hc Hh).
Qed.

(** The script touches no file that is not named on its command line:
    whether it ends normally or with an exception, every other file holds
    what it held. *)
Theorem main_keeps_other_files nbfiles : forall fs other,
  other ∉ nbfiles -> (main fmt nbfiles fs).1 !! other = fs !! other.
Proof.
  induction nbfiles as [|f fl IH]; intros fs other Hn; [reflexivity|].
  apply not_elem_of_cons in Hn. destruct Hn as [Hne Hn].
  rewrite main_cons.
  destruct (cleannb fmt f fs).2 eqn:Hr.
  - rewrite IH by exact Hn. now apply cleannb_other.
  - simpl. now apply cleannb_other.
Qed.

(** When the script ends normally, every file named on the command line
    holds a notebook, as [nbformat.write] writes it, in which the five
    entries have the values of lines 11 to 15. *)
Theorem main_cleans_every_file nbfiles : forall fs fs' (u : unit) nbfile,
  main fmt nbfiles fs = (fs', Done u) ->
  nbfile ∈ nbfiles ->
  holds_cleaned fmt fs' nbfile.
Proof.
  induction nbfiles as [|f fl IH]; intros fs fs' u nbfile Hm Hin.
  - inversion Hin.
  - rewrite main_cons in Hm.
    destruct (cleannb fmt f fs) as [fs1 [[]|e]] eqn:Hc; simpl in Hm;
      [|discriminate].
    apply elem_of_cons in Hin. destruct Hin as [->|Hin].
    + apply (main_keeps_cleaned _ _ _ _ _ Hm).
      exact (cleannb_holds_cleaned _ _ _ _ Hc).
    + exact (IH _ _ _ _ Hm Hin).
Qed.


(** With a format that reads back what it has written, a second call of
    [cleannb] on a file that a first call has rewritten succeeds and leaves
    the files as they are. *)
Theorem cleannb_idempotent nbfile fs fs' (u : unit) :
  round_trip fmt ->
  cleannb fmt nbfile fs = (fs', Done u) ->
  cleannb fmt nbfile fs' = (fs', Done tt).
Proof.
  intros Hrt Hc.
  apply cleannb_Done in Hc. destruct Hc as (nb' & c' & Hr & Hw & ->).
  apply read_and_clean_Done in Hr. destruct Hr as (c & nb & _ & _ & Hm).
  unfold cleannb, read_and_clean.
  rewrite lookup_insert_eq, (Hrt _ _ Hw), nbres_bind_Done_l.
  rewrite (clean_metadata_cleaned _ (clean_metadata_sets_entries _ _ Hm)).
  rewrite Hw. now rewrite !insert_insert_eq.
Qed.

End Files.

(** ** Evaluations for cleannb *)

Lemma clean_metadata_keeps_other_paths_witness :
  clean_metadata notebook_py3 = Done notebook_py3_cleaned
  /\ get_path ["metadata"; "kernelspec"; "language"] notebook_py3_cleaned
     = Done (JStr "python").
Proof.
  assert (Hc : clean_metadata notebook_py3 = Done notebook_py3_cleaned)
    by reflexivity.
  split; [exact Hc|].
  rewrite (clean_metadata_keeps_other_paths notebook_py3 notebook_py3_cleaned
             ["metadata"; "kernelspec"; "language"] Hc).
  - reflexivity.
  - repeat constructor.
Defined.

Lemma main_keeps_other_files_witness :
  (main json_format ["a.ipynb"; "b.ipynb"] three_files).1 !! "c.ipynb"
  = Some (Some notebook_py3).
Proof.
  assert (Hn : "c.ipynb" ∉ ["a.ipynb"; "b.ipynb"]).
  { intros Hin. repeat (apply elem_of_cons in Hin as [Hin|Hin];
                        [discriminate|]).
    inversion Hin. }
  etrans.
  - exact (main_keeps_other_files json_format ["a.ipynb"; "b.ipynb"]
             three_files "c.ipynb" Hn).
  - vm_compute. reflexivity.
Defined.

Lemma main_cleans_every_file_witness :
  main json_format ["a.ipynb"; "c.ipynb"] three_files
  = (<["c.ipynb" := Some notebook_py3_cleaned]>
       (<["a.ipynb" := Some notebook_py3_cleaned]> three_files), Done tt)
  /\ holds_cleaned json_format
       (<["c.ipynb" := Some notebook_py3_cleaned]>
          (<["a.ipynb" := Some notebook_py3_cleaned]> three_files)) "a.ipynb".
Proof.
  assert (Hm : main json_format ["a.ipynb"; "c.ipynb"] three_files
               = (<["c.ipynb" := Some notebook_py3_cleaned]>
                    (<["a.ipynb" := Some notebook_py3_cleaned]> three_files),
                  Done tt))
    by (vm_compute; reflexivity).
  split; [exact Hm|].
  apply (main_cleans_every_file json_format ["a.ipynb"; "c.ipynb"]
           three_files _ tt "a.ipynb" Hm).
  apply elem_of_cons. left. reflexivity.
Defined.


Lemma cleannb_idempotent_witness :
  round_trip json_format
  /\ cleannb json_format "a.ipynb" three_files
     = (<["a.ipynb" := Some notebook_py3_cleaned]> three_files, Done tt)
  /\ cleannb json_format "a.ipynb"
       (<["a.ipynb" := Some notebook_py3_cleaned]> three_files)
     = (<["a.ipynb" := Some notebook_py3_cleaned]> three_files, Done tt).
Proof.
  assert (Hrt : round_trip json_format).
  { intros nb c Hw. injection Hw as <-. reflexivity. }
  assert (Hc : cleannb json_format "a.ipynb" three_files
               = (<["a.ipynb" := Some notebook_py3_cleaned]> three_files,
                  Done tt))
    by (vm_compute; reflexivity).
  split; [exact Hrt|]. split; [exact Hc|].
  exact (cleannb_idempotent json_format "a.ipynb" three_files _ tt Hrt Hc).
Defined.
